(** * Pomodoro timer: the countdown / session state machine of
      [src/pomodoro-timer.jsx], embedded as functions on an explicit world.

    The React component keeps eight state variables and four refs; the bell
    manager keeps its audio context and two timer ids; the browser keeps the
    table of live timers and the key-value store.  Every handler of the source is a
    command on that world.  One event of the page (a click, a timer firing, a
    visibility change, a change of the audio context's state) runs its
    handler and then the commit phase, in which React re-runs the effects
    whose dependencies changed.

    The bell needs an audio context.  [new AudioCtx()] throws where the
    browser has no [AudioContext]; nothing in the source catches it, so the
    exception ends the handler that rang the bell: the statements after the
    call do not run, and the state updates made before it stay.

    An event is atomic: the page is single-threaded, and the state updates
    of one handler are applied in order before the next event.  A handler
    that reads a state variable reads the value of the render it closes over,
    which is passed to it as [render].

    Clock values ([Date.now()]) are integers, in milliseconds.  The source
    divides by 1000 and subtracts in floating point; here this arithmetic is
    done on exact rationals. *)

From Stdlib Require Import ZArith QArith Qround Qminmax Lia Ascii DecimalZ DecimalString.
From stdpp Require Import gmap strings list fin_maps.

Close Scope Q_scope.
Open Scope Z_scope.

(** ** Configuration table *)

Inductive ModeKey := focus | short | long.

Definition FOCUS_COLOR : string := "#1B3A5C".
Definition SHORT_COLOR : string := "#2E7D4F".
Definition LONG_COLOR  : string := "#E8943A".

Record ModeInfo := { label : string; duration : Z; color : string }.

Definition MODES (m : ModeKey) : ModeInfo :=
  match m with
  | focus => {| label := "FOCUS";       duration := 25 * 60; color := FOCUS_COLOR |}
  | short => {| label := "SHORT BREAK"; duration :=  5 * 60; color := SHORT_COLOR |}
  | long  => {| label := "LONG BREAK";  duration := 15 * 60; color := LONG_COLOR  |}
  end.

(** ** The world *)

(** What a live browser timer runs when it fires. *)
Inductive Task :=
| TickTask      (* the component's 500 ms interval callback *)
| BellRing      (* the bell's 4000 ms interval callback *)
| BellAutoStop. (* the bell's 60000 ms timeout: [stop] *)

#[global] Instance Task_eq_dec : EqDecision Task.
Proof. solve_decision. Defined.

(** Calls that leave a trace: a run of the expiry handler, a strike of the
    bell (the audio output), and a request to resume the audio context. *)
Inductive Call :=
| Call_finishSession
| Call_strikeBell
| Call_resume.

(** [ctx.state] of an audio context. *)
Inductive AudioState :=
| audio_running
| audio_suspended
| audio_closed.

(** [useState] variables of [PomodoroTimer]. *)
Record Comp := {
  mode          : ModeKey;
  timeLeft      : Z;
  running       : bool;
  sessions      : Z;
  dailySessions : Z;
  loaded        : bool;
  bellActive    : bool;
  alertMsg      : string
}.

(** [useRef] cells of [PomodoroTimer]; [None] is JavaScript's [null]. *)
Record Refs := {
  intervalRef      : option nat;
  startedAtRef     : option Z;
  remainingAtStart : option Z;
  modeRef          : ModeKey
}.

(** The two timer ids closed over by [createBellManager]; its third
    variable, [ctx], is the field [ctx] of the world. *)
Record BellManager := {
  intervalId : option nat;
  timeoutId  : option nat
}.

Record World := {
  st      : Comp;
  refs    : Refs;
  bell    : BellManager;
  ctx     : option AudioState;      (* the bell manager's [ctx]: null, or a
                                       context and the state it reports *)
  AudioCtx : option AudioState;     (* window.AudioContext ||
                                       window.webkitAudioContext: undefined, or
                                       a constructor and the state a new
                                       context reports *)
  timers  : gmap nat Task;          (* live timers of the page, by id *)
  nextId  : nat;                    (* next id the browser hands out *)
  storage : gmap string string;     (* window.storage *)
  calls   : list Call               (* most recent call first *)
}.

(** What the environment answers during one event. *)
Record Env := {
  now         : Z;        (* Date.now(), milliseconds *)
  fullYear    : Z;        (* new Date().getFullYear() *)
  month       : Z;        (* new Date().getMonth(), 0-based *)
  date        : Z;        (* new Date().getDate() *)
  storageDown : bool      (* window.storage calls reject *)
}.

(** Commands are world transformers. *)
Definition Cmd := World -> World.

(** How a call ends: it returns, or an exception is on its way out; either
    way it leaves a world behind. *)
Inductive Outcome :=
| Done (w : World)
| Thrown (w : World).

Definition world_of (o : Outcome) : World :=
  match o with
  | Done w => w
  | Thrown w => w
  end.
Coercion world_of : Outcome >-> World.

(** A call that may throw. *)
Definition Throwing := World -> Outcome.

(** [c1 >> c2] runs [c1] then [c2]; [c2] may be a command or a call that
    may throw. *)
Definition andThen {R : Type} (c1 : Cmd) (c2 : World -> R) : World -> R :=
  fun w => c2 (c1 w).
Notation "c1 >> c2" := (andThen c1 c2) (at level 61, left associativity).

(** [t >>> c]: the statements [c] after a call [t] that may throw run only
    if [t] returns. *)
Definition thenDo (t : Throwing) (c : Cmd) : Throwing :=
  fun w => match t w with
           | Done w' => Done (c w')
           | Thrown w' => Thrown w'
           end.
Notation "t >>> c" := (thenDo t c) (at level 61, left associativity).

(** A command where a call that may throw is expected: it returns. *)
Definition returns (c : Cmd) : Throwing := fun w => Done (c w).

(** An exception that leaves a handler is reported by the browser, and the
    page carries on in the world the handler left. *)
Definition uncaught (t : Throwing) : Cmd := fun w => world_of (t w).

Definition skip : Cmd := fun w => w.

(** [If b Then c1 Else c2]: a branch of the handler. *)
Definition cond {R : Type} (b : bool) (c1 c2 : World -> R) : World -> R :=
  fun w => if b then c1 w else c2 w.
Notation "'If' b 'Then' c1 'Else' c2" := (cond b c1 c2)
  (at level 10, b at level 200, c1 at level 200, c2 at level 200).

(** [reading get k]: read a value off the current world, continue with it. *)
Definition reading {A R : Type} (get : World -> A) (k : A -> World -> R) :
    World -> R :=
  fun w => k (get w) w.

(** [===] on mode keys, and the [=== null] test on a ref. *)
Definition ModeKey_eqb (a b : ModeKey) : bool :=
  match a, b with
  | focus, focus | short, short | long, long => true
  | _, _ => false
  end.

Definition is_null {A : Type} (r : option A) : bool :=
  match r with
  | None => true
  | Some _ => false
  end.

(** *** Setters *)

Definition withSt (f : Comp -> Comp) : Cmd := fun w =>
  {| st := f (st w); refs := refs w; bell := bell w; ctx := ctx w;
     AudioCtx := AudioCtx w; timers := timers w;
     nextId := nextId w; storage := storage w; calls := calls w |}.

Definition withRefs (f : Refs -> Refs) : Cmd := fun w =>
  {| st := st w; refs := f (refs w); bell := bell w; ctx := ctx w;
     AudioCtx := AudioCtx w; timers := timers w;
     nextId := nextId w; storage := storage w; calls := calls w |}.

Definition withBell (f : BellManager -> BellManager) : Cmd := fun w =>
  {| st := st w; refs := refs w; bell := f (bell w); ctx := ctx w;
     AudioCtx := AudioCtx w; timers := timers w;
     nextId := nextId w; storage := storage w; calls := calls w |}.

Definition withTimers (f : gmap nat Task -> gmap nat Task) : Cmd := fun w =>
  {| st := st w; refs := refs w; bell := bell w; ctx := ctx w;
     AudioCtx := AudioCtx w; timers := f (timers w);
     nextId := nextId w; storage := storage w; calls := calls w |}.

Definition withStorage (f : gmap string string -> gmap string string) : Cmd := fun w =>
  {| st := st w; refs := refs w; bell := bell w; ctx := ctx w;
     AudioCtx := AudioCtx w; timers := timers w;
     nextId := nextId w; storage := f (storage w); calls := calls w |}.

(** [ctx = c] in the bell manager. *)
Definition set_ctx (c : option AudioState) : Cmd := fun w =>
  {| st := st w; refs := refs w; bell := bell w; ctx := c;
     AudioCtx := AudioCtx w; timers := timers w;
     nextId := nextId w; storage := storage w; calls := calls w |}.

Definition record (c : Call) : Cmd := fun w =>
  {| st := st w; refs := refs w; bell := bell w; ctx := ctx w;
     AudioCtx := AudioCtx w; timers := timers w;
     nextId := nextId w; storage := storage w; calls := c :: calls w |}.

Definition setMode (m : ModeKey) : Cmd := withSt (fun s =>
  {| mode := m; timeLeft := timeLeft s; running := running s; sessions := sessions s;
     dailySessions := dailySessions s; loaded := loaded s;
     bellActive := bellActive s; alertMsg := alertMsg s |}).

Definition setTimeLeft (t : Z) : Cmd := withSt (fun s =>
  {| mode := mode s; timeLeft := t; running := running s; sessions := sessions s;
     dailySessions := dailySessions s; loaded := loaded s;
     bellActive := bellActive s; alertMsg := alertMsg s |}).

(** [setRunning] and [setSessions] take an updater, as [setRunning(r => !r)]
    does; [setRunning(false)] is the constant updater. *)
Definition setRunning (f : bool -> bool) : Cmd := withSt (fun s =>
  {| mode := mode s; timeLeft := timeLeft s; running := f (running s);
     sessions := sessions s; dailySessions := dailySessions s; loaded := loaded s;
     bellActive := bellActive s; alertMsg := alertMsg s |}).

Definition setSessions (f : Z -> Z) : Cmd := withSt (fun s =>
  {| mode := mode s; timeLeft := timeLeft s; running := running s;
     sessions := f (sessions s); dailySessions := dailySessions s; loaded := loaded s;
     bellActive := bellActive s; alertMsg := alertMsg s |}).

Definition setDaily (d : Z) : Cmd := withSt (fun s =>
  {| mode := mode s; timeLeft := timeLeft s; running := running s;
     sessions := sessions s; dailySessions := d; loaded := loaded s;
     bellActive := bellActive s; alertMsg := alertMsg s |}).

Definition setLoaded (b : bool) : Cmd := withSt (fun s =>
  {| mode := mode s; timeLeft := timeLeft s; running := running s;
     sessions := sessions s; dailySessions := dailySessions s; loaded := b;
     bellActive := bellActive s; alertMsg := alertMsg s |}).

Definition setBellActive (b : bool) : Cmd := withSt (fun s =>
  {| mode := mode s; timeLeft := timeLeft s; running := running s;
     sessions := sessions s; dailySessions := dailySessions s; loaded := loaded s;
     bellActive := b; alertMsg := alertMsg s |}).

Definition setAlertMsg (m : string) : Cmd := withSt (fun s =>
  {| mode := mode s; timeLeft := timeLeft s; running := running s;
     sessions := sessions s; dailySessions := dailySessions s; loaded := loaded s;
     bellActive := bellActive s; alertMsg := m |}).

Definition set_intervalRef (v : option nat) : Cmd := withRefs (fun r =>
  {| intervalRef := v; startedAtRef := startedAtRef r;
     remainingAtStart := remainingAtStart r; modeRef := modeRef r |}).

Definition set_startedAtRef (v : option Z) : Cmd := withRefs (fun r =>
  {| intervalRef := intervalRef r; startedAtRef := v;
     remainingAtStart := remainingAtStart r; modeRef := modeRef r |}).

Definition set_remainingAtStart (v : option Z) : Cmd := withRefs (fun r =>
  {| intervalRef := intervalRef r; startedAtRef := startedAtRef r;
     remainingAtStart := v; modeRef := modeRef r |}).

Definition set_modeRef (m : ModeKey) : Cmd := withRefs (fun r =>
  {| intervalRef := intervalRef r; startedAtRef := startedAtRef r;
     remainingAtStart := remainingAtStart r; modeRef := m |}).

Definition set_intervalId (v : option nat) : Cmd := withBell (fun b =>
  {| intervalId := v; timeoutId := timeoutId b |}).

Definition set_timeoutId (v : option nat) : Cmd := withBell (fun b =>
  {| intervalId := intervalId b; timeoutId := v |}).

(** *** Browser timers *)

(** [setInterval] / [setTimeout]: a fresh id is handed out and the task is
    live under it; [k] receives the id. *)
Definition setTimer (t : Task) (k : nat -> Cmd) : Cmd := fun w =>
  let id := nextId w in
  k id {| st := st w; refs := refs w; bell := bell w; ctx := ctx w;
          AudioCtx := AudioCtx w;
          timers := <[id := t]> (timers w); nextId := S id;
          storage := storage w; calls := calls w |}.

(** [clearInterval] / [clearTimeout]: they share one pool of ids, and
    clearing [null] or a dead id does nothing. *)
Definition clearTimer (h : option nat) : Cmd :=
  withTimers (fun live => match h with
                          | Some id => delete id live
                          | None => live
                          end).

(** ** The bell manager ([createBellManager]) *)

Definition strikeBell : Cmd := record Call_strikeBell.

Module bell_manager.

Definition stop : Cmd :=
  reading (fun w => intervalId (bell w)) clearTimer >>
  reading (fun w => timeoutId (bell w)) clearTimer >>
  set_intervalId None >>
  set_timeoutId None.

(** [!ctx || ctx.state === "closed"] *)
Definition needs_ctx (w : World) : bool :=
  match ctx w with
  | None => true
  | Some audio_closed => true
  | Some _ => false
  end.

(** [ctx = new AudioCtx()]: where [AudioCtx] is undefined, the call throws. *)
Definition new_AudioCtx : Throwing := fun w =>
  match AudioCtx w with
  | Some s => Done (set_ctx (Some s) w)
  | None => Thrown w
  end.

(** [ctx.state === "suspended"] *)
Definition is_suspended (w : World) : bool :=
  match ctx w with
  | Some audio_suspended => true
  | _ => false
  end.

(** [ctx.resume()] is a request: the state changes when the browser grants
    it (the event [AudioStateChange] below). *)
Definition resume : Cmd := record Call_resume.

Definition ensureCtx : Throwing :=
  reading needs_ctx (fun missing =>
    If missing Then new_AudioCtx Else returns skip) >>>
  reading is_suspended (fun suspended =>
    If suspended Then resume Else skip).

(** The callback that [start] hands to [setInterval(..., 4000)]. *)
Definition onInterval : Throwing :=
  ensureCtx >>>
  strikeBell.

Definition start : Throwing :=
  ensureCtx >>>
  strikeBell >>>
  setTimer BellRing (fun id => set_intervalId (Some id)) >>>
  setTimer BellAutoStop (fun id => set_timeoutId (Some id)).

End bell_manager.

(** ** Daily session helpers *)

(** [String(n)] on an integer. *)
Definition js_String (n : Z) : string := NilZero.string_of_int (Z.to_int n).

Fixpoint cycle (k : nat) (fill rest : string) : string :=
  match k with
  | O => ""
  | S k' =>
      match rest with
      | String c r => String c (cycle k' fill r)
      | EmptyString =>
          match fill with
          | String c r => String c (cycle k' fill r)
          | EmptyString => ""
          end
      end
  end.

(** [s.padStart(n, fill)] *)
Definition padStart (n : nat) (fill s : string) : string :=
  cycle (n - String.length s) fill fill +:+ s.

Definition todayKey (e : Env) : string :=
  "pomodoro:" +:+ js_String (fullYear e) +:+ "-" +:+
  padStart 2 "0" (js_String (month e + 1)) +:+ "-" +:+
  padStart 2 "0" (js_String (date e)).

(** A settled promise / a [try] body: a value, or a thrown exception. *)
Inductive Result (A : Type) :=
| Ok (a : A)
| Throw.
Arguments Ok {A} a.
Arguments Throw {A}.

Definition try_catch {A : Type} (body : Result A) (handler : Result A) : Result A :=
  match body with
  | Ok a => Ok a
  | Throw => handler
  end.

Definition then_ {A B : Type} (r : Result A) (k : A -> Result B) : Result B :=
  match r with
  | Ok a => k a
  | Throw => Throw
  end.

(** [window.storage.get(key)]: rejects when the store is down, otherwise
    the stored item ([res.value]) or nothing. *)
Definition storage_get (e : Env) (key : string) (w : World) : Result (option string) :=
  if storageDown e then Throw else Ok (storage w !! key).

(** [window.storage.set(key, value)] *)
Definition storage_set (e : Env) (key value : string) (w : World) : Result World :=
  if storageDown e then Throw else Ok (withStorage (<[key := value]>) w).

Section Persistence.

(** JavaScript's [Number(...)] on a stored string. *)
Variable Number : string -> Z.

Definition loadTodaySessions (e : Env) (w : World) : Result Z :=
  try_catch
    (then_ (storage_get e (todayKey e) w) (fun res =>
       Ok (match res with
           | Some value => Number value
           | None => 0
           end)))
    (Ok 0).

End Persistence.

(** The [.then] callback of the mount effect. *)
Definition onLoaded (n : Z) : Cmd :=
  setDaily n >>
  setLoaded true.

Definition saveTodaySessions (e : Env) (n : Z) (w : World) : Result World :=
  try_catch (storage_set e (todayKey e) (js_String n) w) (Ok w).

(** A promise that nobody awaits: its effect on the world if it fulfils,
    none if it rejects. *)
Definition detached (p : World -> Result World) : Cmd :=
  fun w => match p w with
           | Ok w' => w'
           | Throw => w
           end.

(** ** The component *)

Definition triggerBell (msg : string) : Throwing :=
  bell_manager.start >>>
  setBellActive true >>>
  setAlertMsg msg.

Definition dismissBell : Cmd :=
  bell_manager.stop >>
  setBellActive false >>
  setAlertMsg "".

Definition finishSession (e : Env) : Throwing :=
  record Call_finishSession >>          (* trace only *)
  setRunning (fun _ => false) >>
  reading (fun w => intervalRef (refs w)) clearTimer >>
  set_intervalRef None >>
  set_startedAtRef None >>
  reading (fun w => modeRef (refs w)) (fun m =>
    If ModeKey_eqb m focus Then
      triggerBell "🎯 Focus session complete! Time for a break." >>>
      setSessions (fun s => s + 1) >>>
      reading (fun w => dailySessions (st w)) (fun d =>
        let next := d + 1 in
        detached (saveTodaySessions e next) >>
        setDaily next) >>>
      setMode short >>>
      setTimeLeft (duration (MODES short))
    Else
      triggerBell "☕ Break is over! Let's get back to work." >>>
      setMode focus >>>
      setTimeLeft (duration (MODES focus))).

Definition switchMode (m : ModeKey) : Cmd :=
  setRunning (fun _ => false) >>
  reading (fun w => intervalRef (refs w)) clearTimer >>
  set_intervalRef None >>
  set_startedAtRef None >>
  setMode m >>
  setTimeLeft (duration (MODES m)).

(** A ref used as a number: [null] coerces to 0. *)
Definition js_num (r : option Z) : Z :=
  match r with
  | Some z => z
  | None => 0
  end.

(** [(Date.now() - startedAtRef.current) / 1000] *)
Definition elapsed (e : Env) (w : World) : Q :=
  (inject_Z (now e - js_num (startedAtRef (refs w))) / inject_Z 1000)%Q.

(** [Math.max(remainingAtStart.current - elapsed, 0)] *)
Definition remaining (e : Env) (w : World) : Q :=
  Qmax (inject_Z (js_num (remainingAtStart (refs w))) - elapsed e w)%Q 0%Q.

(** The callback handed to [setInterval(..., 500)]. *)
Definition intervalCallback (e : Env) : Throwing :=
  reading (remaining e) (fun rem =>
    If Qle_bool rem 0 Then
      setTimeLeft 0 >>
      finishSession e
    Else
      returns (setTimeLeft (Qceiling rem))).

(** The [visibilitychange] listener; [render] is the render it closes over. *)
Definition onVisible (render : Comp) (e : Env) : Throwing :=
  reading (fun w => startedAtRef (refs w)) (fun startedAt =>
    If negb (running render) || is_null startedAt Then returns skip
    Else
      reading (remaining e) (fun rem =>
        If Qle_bool rem 0 Then
          setTimeLeft 0 >>
          finishSession e
        Else
          returns (setTimeLeft (Qceiling rem)))).

(** The start / pause button. *)
Definition onClickStartPause (render : Comp) : Cmd :=
  (If running render Then set_startedAtRef None Else skip) >>
  setRunning negb.

(** The reset button. *)
Definition onClickReset (render : Comp) : Cmd :=
  setRunning (fun _ => false) >>
  reading (fun w => intervalRef (refs w)) clearTimer >>
  set_intervalRef None >>
  set_startedAtRef None >>
  setTimeLeft (duration (MODES (mode render))).

(** *** Effects *)

(** Cleanup of the main timer effect. *)
Definition timerEffect_cleanup : Cmd :=
  reading (fun w => intervalRef (refs w)) clearTimer >>
  set_intervalRef None.

(** Body of the main timer effect, for the render it belongs to. *)
Definition timerEffect (render : Comp) (e : Env) : Cmd :=
  If running render Then
    reading (fun w => startedAtRef (refs w)) (fun startedAt =>
      If is_null startedAt Then
        set_startedAtRef (Some (now e)) >>
        set_remainingAtStart (Some (timeLeft render))
      Else skip) >>
    setTimer TickTask (fun id => set_intervalRef (Some id))
  Else skip.

(** After a handler, React renders and re-runs the effects whose
    dependencies differ from the previous render [prev]: the [modeRef] sync
    depends on [mode], the timer effect on [running]. *)
Definition commit (prev : Comp) (e : Env) : Cmd :=
  reading st (fun render =>
    (If ModeKey_eqb (mode prev) (mode render) Then skip
     Else set_modeRef (mode render)) >>
    (If Bool.eqb (running prev) (running render) Then skip
     Else timerEffect_cleanup >> timerEffect render e)).

(** ** Events of the page *)

Inductive Event :=
| ClickStartPause
| ClickReset
| ClickTab (m : ModeKey)
| ClickDismiss
| TimerFired (id : nat)
| VisibilityChange
| AudioStateChange (s : AudioState).

(** A timer that fires runs its task if it is still live; a timeout is
    gone once it has fired. *)
Definition fire (id : nat) (e : Env) : Throwing :=
  fun w => match timers w !! id with
           | Some TickTask => intervalCallback e w
           | Some BellRing => bell_manager.onInterval w
           | Some BellAutoStop =>
               Done ((withTimers (delete id) >> bell_manager.stop) w)
           | None => Done w
           end.

(** The browser moves the audio context to another state: it grants a
    [resume], or suspends the context.  Nothing of the page listens. *)
Definition onStateChange (s : AudioState) : Cmd :=
  fun w => match ctx w with
           | Some _ => set_ctx (Some s) w
           | None => w
           end.

Definition handle (render : Comp) (e : Env) (ev : Event) : Throwing :=
  fun w => match ev with
           | ClickStartPause => Done (onClickStartPause render w)
           | ClickReset => Done (onClickReset render w)
           | ClickTab m => Done (switchMode m w)
           | ClickDismiss => Done (dismissBell w)
           | TimerFired id => fire id e w
           | VisibilityChange => onVisible render e w
           | AudioStateChange s => Done (onStateChange s w)
           end.

(** One event: the handler, whose exception nothing catches, then the
    commit of the state updates it made. *)
Definition step (e : Env) (ev : Event) : Cmd :=
  reading st (fun render => uncaught (handle render e ev) >> commit render e).

Fixpoint run (evs : list (Env * Event)) (w : World) : World :=
  match evs with
  | [] => w
  | (e, ev) :: rest => run rest (step e ev w)
  end.

(** Unmounting runs the cleanups: the tick interval and the bell. *)
Definition unmount : Cmd :=
  timerEffect_cleanup >>
  bell_manager.stop.

(** The component right after mounting, in a browser whose [AudioCtx] is
    [audio] and over a given store. *)
Definition mount_in (audio : option AudioState) (store : gmap string string) :
    World :=
  {| st := {| mode := focus; timeLeft := duration (MODES focus); running := false;
              sessions := 0; dailySessions := 0; loaded := false;
              bellActive := false; alertMsg := "" |};
     refs := {| intervalRef := None; startedAtRef := None;
                remainingAtStart := None; modeRef := focus |};
     bell := {| intervalId := None; timeoutId := None |};
     ctx := None;
     AudioCtx := audio;
     timers := ∅;
     nextId := 1%nat;
     storage := store;
     calls := [] |}.

(** ... in a browser whose audio contexts run as soon as they are made. *)
Definition mount (store : gmap string string) : World :=
  mount_in (Some audio_running) store.

(** ** Notions used by the statements *)

(** [ev] makes the component recompute the remaining time in [w]: the tick
    of a live 500 ms interval, or a visibility change while running with an
    anchor. *)
Definition recomputes (w : World) (ev : Event) : bool :=
  match ev with
  | TimerFired id =>
      match timers w !! id with
      | Some TickTask => true
      | _ => false
      end
  | VisibilityChange => running (st w) && negb (is_null (startedAtRef (refs w)))
  | _ => false
  end.

(** Events that are not a command of the user on the timer. *)
Definition passive (ev : Event) : bool :=
  match ev with
  | TimerFired _ | VisibilityChange | ClickDismiss | AudioStateChange _ => true
  | _ => false
  end.

(** Runs of the expiry handler in a call trace. *)
Fixpoint count_finish (cs : list Call) : nat :=
  match cs with
  | [] => O
  | Call_finishSession :: rest => S (count_finish rest)
  | _ :: rest => count_finish rest
  end.

(** How many times [finishSession] has run so far. *)
Definition expiries (w : World) : nat := count_finish (calls w).

(** The two anchor cells are set together or unset together. *)
Definition paired (w : World) : Prop :=
  startedAtRef (refs w) = None <-> remainingAtStart (refs w) = None.

(** How many bell loops are live: timers that strike the bell. *)
Definition bell_loops (w : World) : nat :=
  size (filter (fun kv : nat * Task => kv.2 = BellRing) (timers w)).

Definition env_at (t : Z) : Env :=
  {| now := t; fullYear := 2024; month := 0; date := 15; storageDown := false |}.

Definition env_down (t : Z) : Env :=
  {| now := t; fullYear := 2024; month := 0; date := 15; storageDown := true |}.

(** The world right after a first press of START at time 0. *)
Definition started : World := step (env_at 0) ClickStartPause (mount ∅).

(** ... and after the tick that fires ten seconds later. *)
Definition ticked_10s : World := step (env_at 10000) (TimerFired 1) started.

(** The same first press of START in a browser without [AudioContext]. *)
Definition silent_start : World :=
  step (env_at 0) ClickStartPause (mount_in None ∅).

(** Two worlds that differ at most in what the external store holds. *)
Definition same_but_storage (w1 w2 : World) : Prop :=
  st w1 = st w2 /\ refs w1 = refs w2 /\ bell w1 = bell w2 /\
  timers w1 = timers w2 /\ nextId w1 = nextId w2 /\ calls w1 = calls w2 /\
  ctx w1 = ctx w2 /\ AudioCtx w1 = AudioCtx w2.


(** Strikes of the bell in a call trace. *)
Fixpoint count_strike (cs : list Call) : nat :=
  match cs with
  | [] => O
  | Call_strikeBell :: rest => S (count_strike rest)
  | _ :: rest => count_strike rest
  end.

(** How many times the bell has struck so far. *)
Definition strikes (w : World) : nat := count_strike (calls w).

(** The two session counters. *)
Definition counters (w : World) : Z * Z :=
  (sessions (st w), dailySessions (st w)).

(** An event that observes the end of the run anchored at [(s, r)] whose
    interval has id [id]: a tick of that interval or a visibility change,
    at or after the instant at which nothing remains. *)
Definition hits (s r : Z) (id : nat) (x : Env * Event) : Prop :=
  (x.2 = TimerFired id \/ x.2 = VisibilityChange) /\ s + 1000 * r <= now x.1.

(** A short break under way: a focus session started at 0 and expired at
    1500 s, then START pressed again. *)
Definition on_break : World :=
  run [(env_at 0, ClickStartPause); (env_at 1500000, TimerFired 1%nat);
       (env_at 1500100, ClickStartPause)] (mount ∅).

(** One second left on the display and running: started at 0, ticked at
    1499 s, paused, and resumed at 1500 s. *)
Definition last_second : World :=
  run [(env_at 0, ClickStartPause); (env_at 1499000, TimerFired 1%nat);
       (env_at 1499100, ClickStartPause); (env_at 1500000, ClickStartPause)]
      (mount ∅).

(** Ticks of that run every 500 ms, a visibility change among them. *)
Definition late_ticks : list (Env * Event) :=
  [(env_at 1500500, TimerFired 2%nat); (env_at 1501000, TimerFired 2%nat);
   (env_at 1501500, TimerFired 2%nat); (env_at 1502000, VisibilityChange);
   (env_at 1502500, TimerFired 2%nat)].

(** A break that ends while the bell of the focus session before it still
    rings: focus expires at 1500 s, START is pressed, and the next tick
    finds the clock 300 s further on (the machine slept) before the bell's
    60 s timeout has fired. *)
Definition second_alert : World :=
  run [(env_at 0, ClickStartPause); (env_at 1500000, TimerFired 1%nat);
       (env_at 1500100, ClickStartPause); (env_at 1800100, TimerFired 4%nat)]
      (mount ∅).

(** ** What the render shows *)

(** [MODES[mode].duration] *)
Definition totalDuration (s : Comp) : Z := duration (MODES (mode s)).

(** [(totalDuration - timeLeft) / totalDuration] *)
Definition progress (s : Comp) : Q :=
  (inject_Z (totalDuration s - timeLeft s) / inject_Z (totalDuration s))%Q.

(** [String(Math.floor(timeLeft / 60)).padStart(2, "0")] *)
Definition minutes (s : Comp) : string :=
  padStart 2 "0" (js_String (timeLeft s / 60)).

(** [String(timeLeft % 60).padStart(2, "0")]; [%] keeps the sign of the
    dividend. *)
Definition seconds (s : Comp) : string :=
  padStart 2 "0" (js_String (Z.rem (timeLeft s) 60)).

Definition dailyGoal : Z := 8.

(** [Math.min(dailySessions / dailyGoal, 1)] *)
Definition dailyPct (s : Comp) : Q :=
  Qmin (inject_Z (dailySessions s) / inject_Z dailyGoal)%Q 1%Q.

(** The fill of the progress bar: [dailyPct >= 1 ? SHORT_COLOR : FOCUS_COLOR]. *)
Definition barColor (s : Comp) : string :=
  if Qle_bool 1 (dailyPct s) then SHORT_COLOR else FOCUS_COLOR.

(** The third statistic: the party sign or what is left of the goal, and
    its caption. *)
Definition leftStat (s : Comp) : string :=
  if dailyGoal <=? dailySessions s then "🎉"
  else js_String (dailyGoal - dailySessions s).

Definition leftCaption (s : Comp) : string :=
  if dailyGoal <=? dailySessions s then "Goal hit!" else "Left".

(** The row of dots: dot [i] is lit when [i < dailySessions]. *)
Definition dots (s : Comp) : list bool :=
  map (fun i => Z.of_nat i <? dailySessions s) (seq 0 (Z.to_nat dailyGoal)).

(** Reading a two-character field of the clock face back as a number. *)
Definition read_field (s : string) : option Z :=
  Z.of_int <$> NilZero.int_of_string s.

(** A clock that does not run backwards: the events' clock values are
    non-decreasing from [t] on. *)
Fixpoint forward (t : Z) (evs : list (Env * Event)) : Prop :=
  match evs with
  | [] => True
  | (e, _) :: rest => t <= now e /\ forward (now e) rest
  end.

(** The invariant of the display under such a clock, at clock value [t]. *)
Definition in_range (t : Z) (w : World) : Prop :=
  timeLeft (st w) <= totalDuration (st w) /\
  (running (st w) = true ->
   exists s r, startedAtRef (refs w) = Some s /\
               remainingAtStart (refs w) = Some r /\
               s <= t /\ r <= totalDuration (st w)).

(** The bell's state as the banner and the manager hold it. *)
Record bell_ok (w : World) : Prop := {
  bell_ids : intervalId (bell w) = None <-> timeoutId (bell w) = None;
  bell_banner : intervalId (bell w) <> None -> bellActive (st w) = true;
  bell_msg : if bellActive (st w)
             then alertMsg (st w) = "🎯 Focus session complete! Time for a break." \/
                  alertMsg (st w) = "☕ Break is over! Let's get back to work."
             else alertMsg (st w) = ""
}.

(** A session with a pause in it, under a forward clock. *)
Definition paused_session : list (Env * Event) :=
  [(env_at 0, ClickStartPause); (env_at 10500, TimerFired 1%nat);
   (env_at 20000, ClickStartPause); (env_at 30000, ClickStartPause);
   (env_at 40250, TimerFired 2%nat); (env_at 40300, VisibilityChange)].

(** Events that come from the clock or the tab, not from a button. *)
Definition clockwork (ev : Event) : bool :=
  match ev with
  | TimerFired _ | VisibilityChange => true
  | _ => false
  end.

(** [Number] on the decimal strings that [String] writes: an instance for
    the parameter of [loadTodaySessions]. *)
Definition Number_of_decimal (s : string) : Z :=
  match read_field s with
  | Some n => n
  | None => 0
  end.

(** No minus sign or dash in a string. *)
Fixpoint dashless (s : string) : bool :=
  match s with
  | EmptyString => true
  | String c rest => negb (Ascii.eqb c "-"%char) && dashless rest
  end.

(** A calendar date as [new Date()] reports it. *)
Definition calendar (e : Env) : Prop :=
  0 <= fullYear e /\ 0 <= month e <= 11 /\ 1 <= date e <= 31.

Definition env_next_day (t : Z) : Env :=
  {| now := t; fullYear := 2024; month := 0; date := 16; storageDown := false |}.

(** ** Reachable worlds and their invariant *)

(** The worlds the page can be in: the mounted component, then any event,
    and the resolution of the load started on mount. *)
Inductive reachable : World -> Prop :=
| reach_mount_in (audio : option AudioState) (store : gmap string string) :
    reachable (mount_in audio store)
| reach_step (e : Env) (ev : Event) (w : World) :
    reachable w -> reachable (step e ev w)
| reach_loaded (n : Z) (w : World) :
    reachable w -> reachable (onLoaded n w).

(** [later w w']: the page in world [w] can get to [w'], by events and by
    the resolution of the load. *)
Inductive later (w : World) : World -> Prop :=
| later_now : later w w
| later_step (e : Env) (ev : Event) (w' : World) :
    later w w' -> later w (step e ev w')
| later_loaded (n : Z) (w' : World) :
    later w w' -> later w (onLoaded n w').

(** What every reachable world satisfies: [modeRef] shadows [mode]; the only
    live tick timer is the one [intervalRef] names; the ids the bell holds
    were handed out earlier and are not the tick timer's; the timer runs
    exactly when it has an anchor and a live tick interval. *)
Record wf (w : World) : Prop := {
  wf_modeRef : modeRef (refs w) = mode (st w);
  wf_tick : forall j, timers w !! j = Some TickTask -> intervalRef (refs w) = Some j;
  wf_bell_interval : forall i, intervalId (bell w) = Some i ->
                     (i < nextId w)%nat /\ intervalRef (refs w) <> Some i;
  wf_bell_timeout : forall i, timeoutId (bell w) = Some i ->
                    (i < nextId w)%nat /\ intervalRef (refs w) <> Some i;
  wf_run : if running (st w)
           then exists s r id,
                  startedAtRef (refs w) = Some s /\
                  remainingAtStart (refs w) = Some r /\
                  intervalRef (refs w) = Some id /\
                  timers w !! id = Some TickTask
           else startedAtRef (refs w) = None /\ intervalRef (refs w) = None
}.

(** Without an [AudioContext] the bell manager has no context and no bell
    loop is live. *)
Definition silent (w : World) : Prop :=
  AudioCtx w = None ->
  ctx w = None /\ forall j, timers w !! j <> Some BellRing.

(** *** Proof automation

    A handler is evaluated on a world whose fields are variables.  Every
    test a handler branches on is decided first ([destruct], [rewrite]);
    then [run_cmds] computes the resulting world. *)

Ltac open_world w :=
  destruct w as [[wmode wtime wrun wsess wdaily wloaded wbellon wmsg]
                 [wivl wstart wrem wmref] [bivl btmo] wctx wnew tm nid sto cs].

(** The cases of [ensureCtx]: a usable context, or none and then what
    [AudioCtx] is. *)
Ltac open_audio c n :=
  destruct c as [[ | | ]|];
  [ | | destruct n as [[ | | ]|] | destruct n as [[ | | ]|] ].

(** The same where [AudioCtx] is known to be defined. *)
Ltac open_ctx c n :=
  destruct c as [[ | | ]|]; [ | | destruct n | destruct n ].

Ltac open_env e :=
  let d := fresh "down" in destruct e as [? ? ? ? d].

Ltac run_head :=
  lazy beta iota zeta delta
       [step handle fire onVisible intervalCallback reading cond andThen skip
        returns uncaught st refs bell ctx AudioCtx timers nextId storage calls
        mode timeLeft running sessions dailySessions loaded bellActive alertMsg
        intervalRef startedAtRef remainingAtStart modeRef intervalId timeoutId
        is_null negb orb].

Ltac run_cmds :=
  lazy beta iota zeta delta
       [step handle fire commit timerEffect timerEffect_cleanup
        onClickStartPause onClickReset switchMode onVisible intervalCallback
        finishSession triggerBell dismissBell bell_manager.start
        bell_manager.stop bell_manager.onInterval bell_manager.ensureCtx
        bell_manager.needs_ctx bell_manager.new_AudioCtx
        bell_manager.is_suspended bell_manager.resume onStateChange
        thenDo returns uncaught world_of set_ctx ctx AudioCtx
        strikeBell detached saveTodaySessions storage_set
        try_catch setTimer clearTimer reading cond andThen skip record
        setMode setTimeLeft setRunning setSessions setDaily setLoaded
        setBellActive setAlertMsg set_intervalRef set_startedAtRef
        set_remainingAtStart set_modeRef set_intervalId set_timeoutId onLoaded
        withSt withRefs withBell withTimers withStorage
        st refs bell timers nextId storage calls
        mode timeLeft running sessions dailySessions loaded bellActive alertMsg
        intervalRef startedAtRef remainingAtStart modeRef intervalId timeoutId
        ModeKey_eqb is_null Bool.eqb negb orb js_num MODES duration
        storageDown now].

(** Field reads in the hypotheses, once the world is opened. *)
Ltac read_fields :=
  repeat match goal with
         | H : _ |- _ =>
             progress
               (lazy beta iota zeta delta
                     [st refs bell ctx AudioCtx timers nextId storage calls
                      mode timeLeft running sessions dailySessions loaded
                      bellActive alertMsg intervalRef startedAtRef
                      remainingAtStart modeRef intervalId timeoutId
                      storageDown now] in H)
         end.

Ltac split_expiry :=
  try match goal with
      | |- context [Qle_bool ?a ?b] => destruct (Qle_bool a b) eqn:?
      end.

(** Where the bell is about to ring, the cases of [ensureCtx]. *)
Ltac audio_cases c n :=
  lazymatch goal with
  | |- context [finishSession] => open_audio c n
  | |- context [bell_manager.onInterval] => open_audio c n
  | |- _ => idtac
  end.

Ltac map_facts :=
  repeat match goal with
  | H : delete _ _ !! _ = Some _ |- _ => apply lookup_delete_Some in H as [? H]
  | H : <[_:=_]> _ !! _ = Some _ |- _ =>
      apply lookup_insert_Some in H as [[? ?] | [? H]]; try discriminate
  end.

Ltac learn pf :=
  let T := type of pf in
  lazymatch goal with
  | _ : T |- _ => fail
  | _ => pose proof pf
  end.

Ltac use_wf :=
  repeat match goal with
  | Ht : (forall j, ?tm !! j = Some TickTask -> _), H : ?tm !! _ = Some TickTask |- _ =>
      learn (Ht _ H)
  | Hb : (forall i, ?b = Some i -> _ /\ _), H : ?b = Some _ |- _ =>
      learn (Hb _ H)
  | Hb : (forall i, Some ?n = Some i -> _ /\ _) |- _ =>
      learn (Hb n eq_refl)
  end;
  repeat match goal with H : _ /\ _ |- _ => destruct H end.

Ltac wf_close :=
  intros; map_facts; use_wf; simplify_eq;
  try solve [ done | congruence | lia | split; [lia | congruence]
            | split; [lia | intros [=]; lia ]
            | eexists _, _, _; repeat split; try reflexivity;
              first [ apply lookup_insert_eq
                    | rewrite !lookup_delete_ne by congruence; assumption
                    | assumption ] ].

Ltac wf_goals := split; run_cmds; wf_close.

(** No context and no bell loop, given that there was none ([Hb]). *)
Ltac still_silent Hb :=
  split; [done|];
  let k := fresh "k" in
  let Hk := fresh "Hk" in
  intros k Hk; map_facts; exact (Hb _ Hk).

(** The ceiling of a positive remaining time is at least one. *)
Ltac ceiling_pos :=
  match goal with
  | Hq : Qle_bool ?x 0 = false |- _ <= Qceiling ?x =>
      let Hx := fresh in
      let Hc := fresh in
      assert (Hx : (0 < x)%Q)
        by (apply Qnot_le_lt; rewrite <- Qle_bool_iff; congruence);
      assert (Hc : (0 < inject_Z (Qceiling x))%Q)
        by (eapply Qlt_le_trans; [exact Hx | apply Qle_ceiling]);
      rewrite <- (Zlt_Qlt 0) in Hc; lia
  end.

(** ** Invariant of the reachable worlds *)

Lemma reach_mount (store : gmap string string) : reachable (mount store).
Proof. apply reach_mount_in. Qed.

Lemma wf_mount (audio : option AudioState) (store : gmap string string) :
  wf (mount_in audio store).
Proof. split; cbn; try done. Qed.

Lemma wf_step (e : Env) (ev : Event) (w : World) : wf w -> wf (step e ev w).
Proof.
  intros [Hm Ht Hbi Hbt Hr]. open_world w. open_env e. read_fields. subst wmref.
  destruct wrun;
    [ destruct Hr as (s & r & id & -> & -> & -> & Hid) | destruct Hr as [-> ->] ];
    destruct ev as [ | | m | | j | | a ].
  - destruct wmode; run_cmds; wf_goals.
  - destruct wmode; run_cmds; wf_goals.
  - destruct m, wmode; run_cmds; wf_goals.
  - destruct wmode, bivl, btmo; run_cmds; wf_goals.
  - destruct (tm !! j) as [[ | | ]|] eqn:Hj.
    + destruct down, wmode; run_head; rewrite Hj; run_head; split_expiry;
        run_head; audio_cases wctx wnew; run_cmds; wf_goals.
    + destruct wmode; run_head; rewrite Hj; run_head; audio_cases wctx wnew;
        run_cmds; wf_goals.
    + destruct wmode, bivl, btmo; run_head; rewrite Hj; run_cmds; wf_goals.
    + destruct wmode; run_head; rewrite Hj; run_cmds; wf_goals.
  - destruct down, wmode; run_head; split_expiry; run_head;
      audio_cases wctx wnew; run_cmds; wf_goals.
  - destruct wctx, wmode; run_cmds; wf_goals.
  - destruct wmode; run_cmds; wf_goals.
  - destruct wmode; run_cmds; wf_goals.
  - destruct m, wmode; run_cmds; wf_goals.
  - destruct wmode, bivl, btmo; run_cmds; wf_goals.
  - destruct (tm !! j) as [[ | | ]|] eqn:Hj.
    + apply Ht in Hj. discriminate.
    + destruct wmode; run_head; rewrite Hj; run_head; audio_cases wctx wnew;
        run_cmds; wf_goals.
    + destruct wmode, bivl, btmo; run_head; rewrite Hj; run_cmds; wf_goals.
    + destruct wmode; run_head; rewrite Hj; run_cmds; wf_goals.
  - destruct wmode; run_cmds; wf_goals.
  - destruct wctx, wmode; run_cmds; wf_goals.
Qed.

Lemma wf_loaded (n : Z) (w : World) : wf w -> wf (onLoaded n w).
Proof.
  intros [Hm Ht Hbi Hbt Hr]. open_world w. run_cmds. split; run_cmds; done.
Qed.

Lemma reachable_wf (w : World) : reachable w -> wf w.
Proof.
  induction 1; auto using wf_mount, wf_step, wf_loaded.
Qed.

Lemma reachable_run (evs : list (Env * Event)) (w : World) :
  reachable w -> reachable (run evs w).
Proof.
  revert w. induction evs as [|[e ev] evs IH]; intros w Hw; cbn; [done|].
  apply IH. by constructor.
Qed.

(** ** The audio context *)

Lemma commit_audio (prev : Comp) (e : Env) (w : World) :
  ctx (commit prev e w) = ctx w /\ AudioCtx (commit prev e w) = AudioCtx w.
Proof.
  open_world w. open_env e.
  destruct prev as [pmode ptime prun psess pdaily ploaded pbell pmsg].
  destruct pmode, wmode, prun, wrun, wstart, wivl; run_cmds; done.
Qed.

Lemma step_AudioCtx (e : Env) (ev : Event) (w : World) :
  AudioCtx (step e ev w) = AudioCtx w.
Proof.
  unfold step, reading, andThen, uncaught. rewrite (proj2 (commit_audio _ _ _)).
  open_world w. open_env e.
  destruct ev as [ | | m | | j | | a ].
  - destruct wrun; run_cmds; done.
  - run_cmds; done.
  - run_cmds; done.
  - run_cmds; done.
  - destruct (tm !! j) as [[ | | ]|] eqn:Hj; run_head; rewrite ?Hj; run_head;
      split_expiry; run_head; audio_cases wctx wnew;
      destruct down, wmref; run_cmds; done.
  - destruct wrun, wstart; run_head; split_expiry; run_head;
      audio_cases wctx wnew; destruct down, wmref; run_cmds; done.
  - destruct wctx; run_cmds; done.
Qed.

Lemma run_AudioCtx (evs : list (Env * Event)) (w : World) :
  AudioCtx (run evs w) = AudioCtx w.
Proof.
  revert w. induction evs as [|[e ev] evs IH]; intros w; cbn [run]; [done|].
  by rewrite IH, step_AudioCtx.
Qed.

Lemma silent_step (e : Env) (ev : Event) (w : World) :
  silent w -> silent (step e ev w).
Proof.
  intros Hs Ha. rewrite step_AudioCtx in Ha. destruct (Hs Ha) as [Hc Hb].
  clear Hs. open_world w. open_env e. read_fields. subst.
  destruct ev as [ | | m | | j | | a ].
  - destruct wmode, wrun, wstart, wivl; run_cmds; still_silent Hb.
  - destruct wmode, wrun, wivl; run_cmds; still_silent Hb.
  - destruct m, wmode, wrun, wivl; run_cmds; still_silent Hb.
  - destruct wmode, wrun, bivl, btmo; run_cmds; still_silent Hb.
  - destruct (tm !! j) as [[ | | ]|] eqn:Hj; [| by apply Hb in Hj | |].
    + run_head; rewrite Hj; run_head; split_expiry;
        destruct down, wmode, wmref, wrun, wivl; run_cmds; still_silent Hb.
    + destruct wmode, wrun, bivl, btmo; run_head; rewrite Hj; run_cmds;
        still_silent Hb.
    + destruct wmode, wrun; run_head; rewrite Hj; run_cmds; still_silent Hb.
  - destruct wrun, wstart; run_head; split_expiry;
      destruct down, wmode, wmref, wivl; run_cmds; still_silent Hb.
  - destruct wmode, wrun; run_cmds; still_silent Hb.
Qed.

Lemma reachable_silent (w : World) : reachable w -> silent w.
Proof.
  induction 1 as [audio store | e ev w _ IH | n w _ IH].
  - intros _. split; [done|]. intros j. cbn. by rewrite lookup_empty.
  - by apply silent_step.
  - revert IH. unfold silent. open_world w. run_cmds. done.
Qed.

(** ** Arithmetic of the recomputation *)

Lemma anchor_diff (r d : Z) :
  (inject_Z r - inject_Z d / inject_Z 1000 == (1000 * r - d) # 1000)%Q.
Proof.
  unfold Qeq, Qminus, Qplus, Qopp, Qdiv, Qmult, Qinv, inject_Z; simpl. lia.
Qed.

Lemma remaining_ms (e : Env) (w : World) :
  (remaining e w ==
   Z.max (1000 * js_num (remainingAtStart (refs w))
          - (now e - js_num (startedAtRef (refs w)))) 0 # 1000)%Q.
Proof.
  unfold remaining, elapsed.
  set (r := js_num (remainingAtStart (refs w))).
  set (d := now e - js_num (startedAtRef (refs w))).
  destruct (Q.max_spec (inject_Z r - inject_Z d / inject_Z 1000)%Q 0%Q) as [[Hlt ->] | [Hle ->]].
  - rewrite anchor_diff in Hlt. unfold Qlt in Hlt; simpl in Hlt.
    rewrite Z.max_r by lia. reflexivity.
  - rewrite anchor_diff in Hle |- *. unfold Qle in Hle; simpl in Hle.
    rewrite Z.max_l by lia. reflexivity.
Qed.


Lemma expired_iff (e : Env) (w : World) :
  Qle_bool (remaining e w) 0 = true <->
  js_num (startedAtRef (refs w)) + 1000 * js_num (remainingAtStart (refs w)) <= now e.
Proof.
  rewrite Qle_bool_iff, remaining_ms. unfold Qle; simpl. lia.
Qed.

Lemma ceiling_remaining (e : Env) (w : World) :
  Qceiling (remaining e w) =
  (Z.max (1000 * js_num (remainingAtStart (refs w))
          - (now e - js_num (startedAtRef (refs w)))) 0 + 999) / 1000.
Proof.
  rewrite remaining_ms. unfold Qceiling, Qfloor, Qopp; simpl.
  set (m := Z.max _ 0).
  assert (Hm : 0 <= m) by (unfold m; lia).
  clearbody m.
  pose proof (Z.div_mod (- m) 1000 ltac:(lia)) as H1.
  pose proof (Z.mod_pos_bound (- m) 1000 ltac:(lia)) as H2.
  pose proof (Z.div_mod (m + 999) 1000 ltac:(lia)) as H3.
  pose proof (Z.mod_pos_bound (m + 999) 1000 ltac:(lia)) as H4.
  lia.
Qed.

(** ** Expiry *)

Lemma recomputes_cases (w : World) (ev : Event) :
  recomputes w ev = true ->
  (exists id, ev = TimerFired id /\ timers w !! id = Some TickTask) \/
  (ev = VisibilityChange /\ running (st w) = true /\
   startedAtRef (refs w) <> None).
Proof.
  destruct ev as [ | | m | | id | | a ]; cbn; try discriminate.
  - destruct (timers w !! id) as [[ | | ]|] eqn:Hid; try discriminate.
    intros _. left. by exists id.
  - intros [-> Hs]%andb_true_iff. right. repeat split.
    destruct (startedAtRef (refs w)); [done | discriminate].
Qed.




Example focus_expiry_at_1500s :
  AudioCtx started <> None /\
  mode (st started) = focus /\
  counters started = (0, 0) /\
  counters (step (env_at 1500000) (TimerFired 1) started) = (1, 1) /\
  mode (st (step (env_at 1500000) (TimerFired 1) started)) = short /\
  timeLeft (st (step (env_at 1500000) (TimerFired 1) started)) = 300.
Proof. vm_compute. repeat split; try reflexivity. discriminate. Qed.

(** ** Recomputation from the anchor *)



Example tick_after_ten_and_a_half_seconds :
  timeLeft (st (step (env_at 10500) (TimerFired 1) started)) = 1490.
Proof. vm_compute. reflexivity. Qed.

(** ** The anchor cells *)

(** C3, as stated, fails: after START and then PAUSE, [startedAtRef] is
    [null] while [remainingAtStart] still holds the snapshot 1500. *)
Lemma pause_keeps_remainingAtStart :
  ~ paired (step (env_at 10100) ClickStartPause ticked_10s).
Proof.
  intros [Hclear _]. vm_compute in Hclear. specialize (Hclear eq_refl).
  discriminate.
Qed.

(** C3, amended. In every reachable world [startedAtRef] is set exactly
    while the timer runs, and then [remainingAtStart] is set too; PAUSE
    clears [startedAtRef] and leaves [remainingAtStart] as it was. *)
Theorem anchor_cells (w : World) :
  reachable w ->
  (running (st w) = true <-> startedAtRef (refs w) <> None) /\
  (startedAtRef (refs w) <> None -> remainingAtStart (refs w) <> None) /\
  (forall e,
      running (st w) = true ->
      startedAtRef (refs (step e ClickStartPause w)) = None /\
      remainingAtStart (refs (step e ClickStartPause w))
      = remainingAtStart (refs w) /\
      remainingAtStart (refs (step e ClickStartPause w)) <> None).
Proof.
  intros Hreach. apply reachable_wf in Hreach as [Hm Ht Hbi Hbt Hr].
  open_world w. read_fields. subst.
  destruct wrun.
  - destruct Hr as (s & r & id & -> & -> & -> & Hid).
    split; [done|]. split; [done|]. intros e _. open_env e.
    destruct wmode; run_cmds; done.
  - destruct Hr as [-> ->]. split; [|split]; [split| |]; done.
Qed.

Lemma anchor_cells_witness :
  (running (st ticked_10s) = true <-> startedAtRef (refs ticked_10s) <> None) /\
  (startedAtRef (refs ticked_10s) <> None ->
   remainingAtStart (refs ticked_10s) <> None) /\
  (forall e,
      running (st ticked_10s) = true ->
      startedAtRef (refs (step e ClickStartPause ticked_10s)) = None /\
      remainingAtStart (refs (step e ClickStartPause ticked_10s))
      = remainingAtStart (refs ticked_10s) /\
      remainingAtStart (refs (step e ClickStartPause ticked_10s)) <> None).
Proof.
  apply (anchor_cells ticked_10s).
  apply reach_step, reach_step, reach_mount.
Defined.

(** ** The bell *)

(** C4 fails on the code: [start] installs a new interval and timeout
    without clearing the ones it holds.  Two starts leave two bell loops
    live; [stop] then clears only the second, and the first keeps striking
    although the manager holds no id any more. *)
Theorem bell_restart_leaks_loop :
  bell_loops (bell_manager.start (mount ∅)) = 1%nat /\
  bell_loops (bell_manager.start (bell_manager.start (mount ∅))) = 2%nat /\
  bell (bell_manager.stop (bell_manager.start (bell_manager.start (mount ∅))))
  = {| intervalId := None; timeoutId := None |} /\
  bell_loops
    (bell_manager.stop (bell_manager.start (bell_manager.start (mount ∅))))
  = 1%nat /\
  bell_loops second_alert = 2%nat /\
  bell_loops (step (env_at 1800200) ClickDismiss second_alert) = 1%nat /\
  calls (step (env_at 1804000) (TimerFired 2)
           (step (env_at 1800200) ClickDismiss second_alert))
  = Call_strikeBell :: calls second_alert.
Proof. vm_compute. repeat split; reflexivity. Qed.

(** ** Commands of the user *)

(** C5. After a pause, the next start takes its anchor from the value on
    display: [remainingAtStart] is the paused [timeLeft]. *)
Theorem resume_reanchors (e1 e2 : Env) (w : World) :
  running (st w) = true ->
  running (st (step e1 ClickStartPause w)) = false /\
  timeLeft (st (step e1 ClickStartPause w)) = timeLeft (st w) /\
  startedAtRef (refs (step e1 ClickStartPause w)) = None /\
  running (st (step e2 ClickStartPause (step e1 ClickStartPause w))) = true /\
  startedAtRef (refs (step e2 ClickStartPause (step e1 ClickStartPause w)))
  = Some (now e2) /\
  remainingAtStart (refs (step e2 ClickStartPause (step e1 ClickStartPause w)))
  = Some (timeLeft (st w)).
Proof.
  intros Hrun. open_world w. open_env e1. open_env e2. read_fields. subst.
  destruct wmode, wivl; run_cmds; done.
Qed.

Lemma resume_reanchors_witness :
  timeLeft (st ticked_10s) = 1490 /\
  remainingAtStart
    (refs (step (env_at 20000) ClickStartPause
             (step (env_at 10100) ClickStartPause ticked_10s)))
  = Some (timeLeft (st ticked_10s)).
Proof.
  split; [vm_compute; reflexivity|].
  apply (resume_reanchors (env_at 10100) (env_at 20000) ticked_10s).
  vm_compute. reflexivity.
Defined.

(** ** One expiry per run *)

Lemma quiet_step (e : Env) (ev : Event) (w : World) :
  wf w ->
  running (st w) = false ->
  passive ev = true ->
  running (st (step e ev w)) = false /\ expiries (step e ev w) = expiries w.
Proof.
  intros [Hm Ht Hbi Hbt Hr] Hrun Hp. unfold expiries.
  open_world w. open_env e. read_fields. subst.
  destruct Hr as [-> ->].
  destruct ev as [ | | m | | j | | a ]; try discriminate.
  - destruct wmode; run_cmds; done.
  - destruct (tm !! j) as [[ | | ]|] eqn:Hj.
    + apply Ht in Hj. discriminate.
    + destruct wmode; run_head; rewrite Hj; run_head; open_audio wctx wnew;
        run_cmds; done.
    + destruct wmode; run_head; rewrite Hj; run_cmds; done.
    + destruct wmode; run_head; rewrite Hj; run_cmds; done.
  - destruct wmode; run_cmds; done.
  - destruct wctx, wmode; run_cmds; done.
Qed.

Lemma running_step (e : Env) (ev : Event) (w : World) (s r : Z) (id : nat) :
  wf w ->
  running (st w) = true ->
  startedAtRef (refs w) = Some s ->
  remainingAtStart (refs w) = Some r ->
  intervalRef (refs w) = Some id ->
  passive ev = true ->
  (hits s r id (e, ev) /\
   running (st (step e ev w)) = false /\
   expiries (step e ev w) = S (expiries w)) \/
  (~ hits s r id (e, ev) /\
   running (st (step e ev w)) = true /\
   startedAtRef (refs (step e ev w)) = Some s /\
   remainingAtStart (refs (step e ev w)) = Some r /\
   intervalRef (refs (step e ev w)) = Some id /\
   expiries (step e ev w) = expiries w).
Proof.
  intros [Hm Ht Hbi Hbt Hr] Hrun Hs Hrem Hid Hp.
  pose proof (expired_iff e w) as Hexp. rewrite Hs, Hrem in Hexp.
  unfold hits, expiries.
  open_world w. open_env e. read_fields. subst.
  destruct Hr as (s' & r' & id' & _ & _ & [= <-] & Hlive).
  cbn [js_num fst snd] in *.
  destruct ev as [ | | m | | j | | a ]; try discriminate.
  - right. destruct wmode, bivl, btmo; run_cmds;
      (split; [intros [[?|?] _]; discriminate | done]).
  - destruct (tm !! j) as [[ | | ]|] eqn:Hj.
    + pose proof (Ht _ Hj) as [= <-].
      destruct (Qle_bool _ _) eqn:Hq in Hexp.
      * left. split; [split; [by left | by apply Hexp]|].
        destruct down, wmode; run_head; rewrite Hj; run_head; rewrite Hq;
          run_head; open_audio wctx wnew; run_cmds; done.
      * right. split; [intros [_ Hle]; apply Hexp in Hle; discriminate|].
        destruct wmode; run_head; rewrite Hj; run_head; rewrite Hq;
          run_cmds; done.
    + right. split; [intros [[[= ->]|?] _]; [congruence | discriminate]|].
      destruct wmode; run_head; rewrite Hj; run_head; open_audio wctx wnew;
        run_cmds; done.
    + right. split; [intros [[[= ->]|?] _]; [congruence | discriminate]|].
      destruct wmode, bivl, btmo; run_head; rewrite Hj; run_cmds; done.
    + right. split; [intros [[[= ->]|?] _]; [congruence | discriminate]|].
      destruct wmode; run_head; rewrite Hj; run_cmds; done.
  - destruct (Qle_bool _ _) eqn:Hq in Hexp.
    + left. split; [split; [by right | by apply Hexp]|].
      destruct down, wmode; run_head; rewrite Hq; run_head;
        open_audio wctx wnew; run_cmds; done.
    + right. split; [intros [_ Hle]; apply Hexp in Hle; discriminate|].
      destruct wmode; run_head; rewrite Hq; run_cmds; done.
  - right. split; [intros [[?|?] _]; discriminate|].
    destruct wctx, wmode; run_cmds; done.
Qed.

Lemma quiet_run (evs : list (Env * Event)) (w : World) :
  wf w ->
  running (st w) = false ->
  Forall (fun x => passive x.2 = true) evs ->
  expiries (run evs w) = expiries w.
Proof.
  revert w. induction evs as [|[e ev] evs IH]; intros w Hwf Hrun Hp; [done|].
  apply Forall_cons in Hp as [Hp Hps]. cbn [run].
  destruct (quiet_step e ev w Hwf Hrun Hp) as [Hrun' Hcount].
  rewrite IH; auto using wf_step.
Qed.

Lemma one_expiry (evs : list (Env * Event)) (w : World) (s r : Z) (id : nat) :
  wf w ->
  running (st w) = true ->
  startedAtRef (refs w) = Some s ->
  remainingAtStart (refs w) = Some r ->
  intervalRef (refs w) = Some id ->
  Forall (fun x => passive x.2 = true) evs ->
  (Exists (hits s r id) evs /\ expiries (run evs w) = S (expiries w)) \/
  (~ Exists (hits s r id) evs /\ expiries (run evs w) = expiries w /\
   running (st (run evs w)) = true).
Proof.
  revert w. induction evs as [|[e ev] evs IH];
    intros w Hwf Hrun Hs Hr Hid Hp.
  - right. split; [by intros ?%Exists_nil | done].
  - apply Forall_cons in Hp as [Hp Hps]. cbn [run].
    destruct (running_step e ev w s r id Hwf Hrun Hs Hr Hid Hp)
      as [(Hhit & Hrun' & Hcount) | (Hmiss & Hrun' & Hs' & Hr' & Hid' & Hcount)].
    + left. split; [by apply Exists_cons_hd|].
      rewrite quiet_run; auto using wf_step.
    + destruct (IH (step e ev w)) as [[Hex Hc] | (Hnex & Hc & Hrun'')];
        auto using wf_step.
      * left. split; [by apply Exists_cons_tl | congruence].
      * right. split; [|split; [congruence | done]].
        intros [?|?]%Exists_cons; contradiction.
Qed.

(** C6. A run is a running world with its anchor; while only timers,
    visibility changes, the bell's dismissal and changes of the audio
    context's state happen, the expiry handler
    runs at most once, and exactly once as soon as one tick of the run's
    interval or one visibility change arrives at or after the instant at
    which nothing remains: later ticks never run it again. *)
Theorem expiry_fires_once
    (evs : list (Env * Event)) (w : World) (s r : Z) (id : nat) :
  reachable w ->
  running (st w) = true ->
  startedAtRef (refs w) = Some s ->
  remainingAtStart (refs w) = Some r ->
  intervalRef (refs w) = Some id ->
  Forall (fun x => passive x.2 = true) evs ->
  (expiries (run evs w) <= S (expiries w))%nat /\
  (Exists (hits s r id) evs -> expiries (run evs w) = S (expiries w)) /\
  (~ Exists (hits s r id) evs ->
   expiries (run evs w) = expiries w /\ running (st (run evs w)) = true).
Proof.
  intros Hreach Hrun Hs Hr Hid Hp. apply reachable_wf in Hreach.
  destruct (one_expiry evs w s r id Hreach Hrun Hs Hr Hid Hp)
    as [[Hex Hc] | (Hnex & Hc & Hrun')].
  - split; [lia|]. split; [done | contradiction].
  - split; [lia|]. split; [contradiction | done].
Qed.

Lemma expiry_fires_once_witness :
  (expiries (run late_ticks last_second) <= S (expiries last_second))%nat /\
  (Exists (hits 1500000 1 2%nat) late_ticks ->
   expiries (run late_ticks last_second) = S (expiries last_second)) /\
  (~ Exists (hits 1500000 1 2%nat) late_ticks ->
   expiries (run late_ticks last_second) = expiries last_second /\
   running (st (run late_ticks last_second)) = true).
Proof.
  apply (expiry_fires_once late_ticks last_second 1500000 1 2%nat).
  - apply reachable_run, reach_mount.
  - vm_compute. reflexivity.
  - vm_compute. reflexivity.
  - vm_compute. reflexivity.
  - vm_compute. reflexivity.
  - repeat constructor.
Defined.

Example one_second_run_expires_once :
  timeLeft (st last_second) = 1 /\
  expiries last_second = 0%nat /\
  expiries (run late_ticks last_second) = 1%nat /\
  Exists (hits 1500000 1 2%nat) late_ticks.
Proof.
  split; [vm_compute; reflexivity|].
  split; [vm_compute; reflexivity|]. split; [vm_compute; reflexivity|].
  apply Exists_cons_tl, Exists_cons_hd. split; [by left | vm_compute; discriminate].
Qed.

(** ** Mode selection and reset *)







(** ** Persistence *)

Lemma remaining_now (e e' : Env) (w w' : World) :
  now e = now e' -> refs w = refs w' -> remaining e w = remaining e' w'.
Proof. intros Hn Hr. unfold remaining, elapsed. by rewrite Hn, Hr. Qed.

Lemma commit_but_storage (prev : Comp) (e e' : Env) (w w' : World) :
  now e = now e' ->
  same_but_storage w w' ->
  same_but_storage (commit prev e w) (commit prev e' w').
Proof.
  intros Hn (Hst & Hrefs & Hbell & Htm & Hid & Hcs & Hctx & Hnew).
  open_world w. destruct w' as [st' refs' bell' ctx' new' tm' nid' sto' cs'].
  open_env e. open_env e'.
  destruct prev as [pmode ptime prun psess pdaily ploaded pbell pmsg].
  read_fields. subst.
  destruct pmode, wmode, prun, wrun, wstart, wivl; run_cmds;
    repeat split; reflexivity.
Qed.

Lemma handle_but_storage (render : Comp) (e e' : Env) (ev : Event) (w : World) :
  now e = now e' ->
  same_but_storage (handle render e ev w) (handle render e' ev w).
Proof.
  intros Hn.
  pose proof (remaining_now e e' w w Hn eq_refl) as Hrem.
  open_world w. open_env e. open_env e'.
  destruct render as [pmode ptime prun psess pdaily ploaded pbell pmsg].
  read_fields. subst.
  destruct ev as [ | | m | | j | | a ].
  - destruct prun; run_cmds; repeat split; reflexivity.
  - run_cmds; repeat split; reflexivity.
  - run_cmds; repeat split; reflexivity.
  - run_cmds; repeat split; reflexivity.
  - destruct (tm !! j) as [[ | | ]|] eqn:Hj;
      run_head; rewrite ?Hj; run_head; rewrite ?Hrem; split_expiry; run_head;
      audio_cases wctx wnew;
      destruct down, down0, wmref; run_cmds; repeat split; reflexivity.
  - destruct prun, wstart; run_head; rewrite ?Hrem; split_expiry; run_head;
      audio_cases wctx wnew;
      destruct down, down0, wmref; run_cmds; repeat split; reflexivity.
  - destruct wctx; run_cmds; repeat split; reflexivity.
Qed.

(** C9. [loadTodaySessions] never rejects and yields 0 when the store
    fails or holds nothing for today; [saveTodaySessions] never rejects and
    a failed write leaves the world as it was; what an event does to the
    component, its refs, the bell and the timers is the same whether the
    store is up or down. *)
Theorem persistence_failures_swallowed (Number : string -> Z) :
  (forall e w, exists n, loadTodaySessions Number e w = Ok n) /\
  (forall e w, storageDown e = true -> loadTodaySessions Number e w = Ok 0) /\
  (forall e w, storage w !! todayKey e = None ->
               loadTodaySessions Number e w = Ok 0) /\
  (forall e n w, exists w', saveTodaySessions e n w = Ok w') /\
  (forall e n w, storageDown e = true -> saveTodaySessions e n w = Ok w) /\
  (forall e e' ev w,
      now e = now e' -> same_but_storage (step e ev w) (step e' ev w)).
Proof.
  split; [|split; [|split; [|split; [|split]]]].
  - intros e w. unfold loadTodaySessions, storage_get, try_catch, then_.
    destruct (storageDown e); [by exists 0|].
    destruct (storage w !! todayKey e); eauto.
  - intros e w Hd. unfold loadTodaySessions, storage_get. by rewrite Hd.
  - intros e w Hk. unfold loadTodaySessions, storage_get, try_catch, then_.
    rewrite Hk. by destruct (storageDown e).
  - intros e n w. unfold saveTodaySessions, storage_set, try_catch.
    destruct (storageDown e); eauto.
  - intros e n w Hd. unfold saveTodaySessions, storage_set. by rewrite Hd.
  - intros e e' ev w Hn. unfold step, reading, andThen, uncaught.
    apply commit_but_storage; [done|]. by apply handle_but_storage.
Qed.

Lemma persistence_failures_swallowed_witness :
  loadTodaySessions (fun _ => 7) (env_down 0) (mount ∅) = Ok 0 /\
  loadTodaySessions (fun _ => 7) (env_at 0) (mount ∅) = Ok 0 /\
  saveTodaySessions (env_down 0) 3 (mount ∅) = Ok (mount ∅) /\
  same_but_storage
    (step (env_down 1500000) (TimerFired 1) started)
    (step (env_at 1500000) (TimerFired 1) started).
Proof.
  destruct (persistence_failures_swallowed (fun _ => 7))
    as (_ & Hdown & Habsent & _ & Hsave & Hstep).
  split; [|split; [|split]].
  - apply Hdown. reflexivity.
  - apply Habsent. vm_compute. reflexivity.
  - apply Hsave. reflexivity.
  - apply Hstep. reflexivity.
Defined.

Example failed_write_still_counts :
  dailySessions (st (step (env_down 1500000) (TimerFired 1) started)) = 1 /\
  storage (step (env_down 1500000) (TimerFired 1) started) = ∅ /\
  storage (step (env_at 1500000) (TimerFired 1) started)
  = {[ "pomodoro:2024-01-15" := "1" ]}.
Proof. vm_compute. repeat split; reflexivity. Qed.

(** ** The counters *)

Lemma commit_frame (prev : Comp) (e : Env) (w : World) :
  st (commit prev e w) = st w /\ calls (commit prev e w) = calls w.
Proof.
  open_world w. open_env e.
  destruct prev as [pmode ptime prun psess pdaily ploaded pbell pmsg].
  destruct pmode, wmode, prun, wrun, wstart, wivl; run_cmds; done.
Qed.

Lemma step_st (e : Env) (ev : Event) (w : World) :
  st (step e ev w) = st (handle (st w) e ev w) /\
  calls (step e ev w) = calls (handle (st w) e ev w).
Proof. unfold step, reading, andThen, uncaught. apply commit_frame. Qed.

Lemma handle_counters (render : Comp) (e : Env) (ev : Event) (w : World) :
  counters (handle render e ev w) = counters w \/
  (modeRef (refs w) = focus /\
   expiries (handle render e ev w) = S (expiries w) /\
   sessions (st (handle render e ev w)) = sessions (st w) + 1 /\
   dailySessions (st (handle render e ev w)) = dailySessions (st w) + 1).
Proof.
  open_world w. open_env e.
  destruct render as [pmode ptime prun psess pdaily ploaded pbell pmsg].
  unfold counters, expiries.
  destruct ev as [ | | m | | j | | a ].
  - left. destruct prun; run_cmds; reflexivity.
  - left. run_cmds; reflexivity.
  - left. run_cmds; reflexivity.
  - left. run_cmds; reflexivity.
  - destruct (tm !! j) as [[ | | ]|] eqn:Hj;
      run_head; rewrite ?Hj; run_head; split_expiry; run_head;
      audio_cases wctx wnew;
      destruct down, wmref; run_cmds;
      first [ left; reflexivity | right; repeat split; reflexivity ].
  - destruct prun, wstart; run_head; split_expiry; run_head;
      audio_cases wctx wnew;
      destruct down, wmref; run_cmds;
      first [ left; reflexivity | right; repeat split; reflexivity ].
  - left. destruct wctx; run_cmds; reflexivity.
Qed.

Lemma step_counters (e : Env) (ev : Event) (w : World) :
  counters (step e ev w) = counters w \/
  (modeRef (refs w) = focus /\
   expiries (step e ev w) = S (expiries w) /\
   sessions (st (step e ev w)) = sessions (st w) + 1 /\
   dailySessions (st (step e ev w)) = dailySessions (st w) + 1).
Proof.
  destruct (step_st e ev w) as [Hst Hcs].
  unfold counters, expiries. rewrite Hst, Hcs.
  apply handle_counters.
Qed.

Lemma step_counters_le (e : Env) (ev : Event) (w : World) :
  sessions (st w) <= sessions (st (step e ev w)) /\
  dailySessions (st w) <= dailySessions (st (step e ev w)).
Proof.
  destruct (step_counters e ev w) as [Hc | (_ & _ & Hs & Hd)].
  - unfold counters in Hc. injection Hc as -> ->. lia.
  - lia.
Qed.

(** C10, as stated, fails on the daily counter over the life of the page:
    the load begun on mount writes the stored count when it resolves, and
    when a focus session has expired before that (here at clock value
    1500 s, with nothing stored) the daily counter goes from 1 back to 0. *)
Lemma late_load_lowers_daily :
  reachable (onLoaded 0 (step (env_at 1500000) (TimerFired 1) started)) /\
  later (step (env_at 1500000) (TimerFired 1) started)
        (onLoaded 0 (step (env_at 1500000) (TimerFired 1) started)) /\
  loaded (st (step (env_at 1500000) (TimerFired 1) started)) = false /\
  dailySessions (st (step (env_at 1500000) (TimerFired 1) started)) = 1 /\
  dailySessions (st (onLoaded 0 (step (env_at 1500000) (TimerFired 1) started)))
  = 0.
Proof.
  split; [apply reach_loaded, reach_step, reach_step, reach_mount_in|].
  split; [apply later_loaded, later_now|].
  vm_compute. repeat split; reflexivity.
Qed.

(** C10, amended. Start, pause, reset and mode selection leave both
    counters as they are, and so does every event of a world whose mode is
    a break; a step changes the counters only by running the expiry handler
    in Focus, which adds one to each; so neither counter decreases along
    the events of the page.  The load begun on mount leaves the session
    counter alone and overwrites the daily counter with the stored count;
    the session counter never decreases over the life of the page. *)
Theorem counters_only_grow :
  (forall e w, counters (step e ClickStartPause w) = counters w) /\
  (forall e w, counters (step e ClickReset w) = counters w) /\
  (forall e m w, counters (step e (ClickTab m) w) = counters w) /\
  (forall e ev w, reachable w -> mode (st w) <> focus ->
                  counters (step e ev w) = counters w) /\
  (forall e ev w,
      counters (step e ev w) = counters w \/
      (modeRef (refs w) = focus /\
       expiries (step e ev w) = S (expiries w) /\
       sessions (st (step e ev w)) = sessions (st w) + 1 /\
       dailySessions (st (step e ev w)) = dailySessions (st w) + 1)) /\
  (forall evs w,
      sessions (st w) <= sessions (st (run evs w)) /\
      dailySessions (st w) <= dailySessions (st (run evs w))) /\
  (forall n w,
      sessions (st (onLoaded n w)) = sessions (st w) /\
      dailySessions (st (onLoaded n w)) = n) /\
  (forall w w', later w w' -> sessions (st w) <= sessions (st w')).
Proof.
  split; [|split; [|split; [|split; [|split; [|split; [|split]]]]]].
  - intros e w.
    destruct (step_counters e ClickStartPause w) as [Hc | (_ & He & _)]; [done|].
    exfalso. revert He. unfold expiries. rewrite (proj2 (step_st _ _ _)).
    open_world w. destruct wrun; run_cmds; lia.
  - intros e w.
    destruct (step_counters e ClickReset w) as [Hc | (_ & He & _)]; [done|].
    exfalso. revert He. unfold expiries. rewrite (proj2 (step_st _ _ _)).
    open_world w. run_cmds; lia.
  - intros e m w.
    destruct (step_counters e (ClickTab m) w) as [Hc | (_ & He & _)]; [done|].
    exfalso. revert He. unfold expiries. rewrite (proj2 (step_st _ _ _)).
    open_world w. run_cmds; lia.
  - intros e ev w Hw Hbreak. apply reachable_wf in Hw as [Hm _ _ _ _].
    destruct (step_counters e ev w) as [Hc | (Hf & _)]; [done|].
    congruence.
  - intros e ev w. destruct (step_counters e ev w) as [Hc | H]; auto.
  - intros evs. induction evs as [|[e ev] evs IH]; intros w; cbn [run]; [lia|].
    destruct (IH (step e ev w)), (step_counters_le e ev w). lia.
  - intros n w. open_world w. run_cmds. done.
  - intros w w'. induction 1 as [ | e ev w' _ IH | n w' _ IH ]; [lia | |].
    + destruct (step_counters_le e ev w'). lia.
    + revert IH. open_world w'. run_cmds. done.
Qed.

(** The break of [on_break], anchored at 1500.1 s with 300 s to go, expires
    at the tick of 1800.1 s. *)
Lemma counters_only_grow_witness :
  counters (step (env_at 1800100) (TimerFired 4) on_break) = counters on_break /\
  counters on_break = (1, 1) /\
  expiries (step (env_at 1800100) (TimerFired 4) on_break) = S (expiries on_break) /\
  mode (st on_break) = short /\
  mode (st (step (env_at 1800100) (TimerFired 4) on_break)) = focus.
Proof.
  split; [|vm_compute; repeat split; reflexivity].
  apply (proj1 (proj2 (proj2 (proj2 counters_only_grow)))).
  - apply reachable_run, reach_mount.
  - vm_compute. discriminate.
Defined.

(** * Further properties of the code *)

(** ** The display *)

Lemma step_timeLeft_nonneg (e : Env) (ev : Event) (w : World) :
  0 <= timeLeft (st w) -> 0 <= timeLeft (st (step e ev w)).
Proof.
  intros Hpos. rewrite (proj1 (step_st e ev w)).
  open_world w. open_env e. read_fields.
  destruct ev as [ | | m | | j | | a ].
  - destruct wrun; run_cmds; done.
  - destruct wmode; run_cmds; done.
  - destruct m; run_cmds; done.
  - run_cmds; done.
  - destruct (tm !! j) as [[ | | ]|] eqn:Hj; run_head; rewrite ?Hj; run_head.
    + destruct (Qle_bool _ _) eqn:Hq.
      * destruct down, wmref; run_head; open_audio wctx wnew; run_cmds; done.
      * run_cmds. ceiling_pos.
    + open_audio wctx wnew; run_cmds; done.
    + run_cmds; done.
    + run_cmds; done.
  - destruct wrun, wstart; run_head; try (run_cmds; done).
    destruct (Qle_bool _ _) eqn:Hq.
    + destruct down, wmref; run_head; open_audio wctx wnew; run_cmds; done.
    + run_cmds. ceiling_pos.
  - destruct wctx; run_cmds; done.
Qed.

Lemma step_timeLeft_pos (e : Env) (ev : Event) (w : World) :
  AudioCtx w <> None ->
  1 <= timeLeft (st w) -> 1 <= timeLeft (st (step e ev w)).
Proof.
  intros Haudio Hpos. rewrite (proj1 (step_st e ev w)).
  open_world w. open_env e. read_fields.
  destruct wnew as [anew|]; [clear Haudio | done].
  destruct ev as [ | | m | | j | | a ].
  - destruct wrun; run_cmds; done.
  - destruct wmode; run_cmds; done.
  - destruct m; run_cmds; done.
  - run_cmds; done.
  - destruct (tm !! j) as [[ | | ]|] eqn:Hj; run_head; rewrite ?Hj; run_head.
    + destruct (Qle_bool _ _) eqn:Hq.
      * destruct down, wmref; run_head; open_ctx wctx anew; run_cmds; done.
      * run_cmds. ceiling_pos.
    + open_ctx wctx anew; run_cmds; done.
    + run_cmds; done.
    + run_cmds; done.
  - destruct wrun, wstart; run_head; try (run_cmds; done).
    destruct (Qle_bool _ _) eqn:Hq.
    + destruct down, wmref; run_head; open_ctx wctx anew; run_cmds; done.
    + run_cmds. ceiling_pos.
  - destruct wctx; run_cmds; done.
Qed.

(** X1. With an [AudioContext] the display never reads zero between two
    events: in every reachable world [timeLeft] is at least 1.  In any
    browser it is never negative. *)
Theorem display_never_zero (w : World) :
  reachable w ->
  0 <= timeLeft (st w) /\
  (AudioCtx w <> None -> 1 <= timeLeft (st w)).
Proof.
  induction 1 as [audio store | e ev w _ [IH0 IH1] | n w _ IH].
  - vm_compute. split; [|intros _]; discriminate.
  - split; [by apply step_timeLeft_nonneg|].
    rewrite step_AudioCtx. intros Ha. apply step_timeLeft_pos; auto.
  - revert IH. open_world w. run_cmds. done.
Qed.

Lemma display_never_zero_witness :
  0 <= timeLeft (st last_second) /\
  (AudioCtx last_second <> None -> 1 <= timeLeft (st last_second)).
Proof.
  apply (display_never_zero last_second). apply reachable_run, reach_mount.
Defined.

(** Without an [AudioContext] the display does read zero, after an expiry. *)
Example display_zero_without_AudioContext :
  reachable (step (env_at 1500000) (TimerFired 1) silent_start) /\
  timeLeft (st (step (env_at 1500000) (TimerFired 1) silent_start)) = 0.
Proof.
  split; [apply reach_step, reach_step, reach_mount_in | vm_compute; reflexivity].
Qed.

Lemma ceiling_below_anchor (e : Env) (w : World) (s r : Z) :
  startedAtRef (refs w) = Some s ->
  remainingAtStart (refs w) = Some r ->
  s <= now e ->
  Qle_bool (remaining e w) 0 = false ->
  Qceiling (remaining e w) <= r.
Proof.
  intros Hs Hr Hle Hq.
  pose proof (expired_iff e w) as Hexp. rewrite Hs, Hr in Hexp.
  cbn [js_num] in Hexp.
  assert (Hpos : ~ s + 1000 * r <= now e).
  { intros H. apply Hexp in H. congruence. }
  rewrite ceiling_remaining, Hs, Hr. cbn [js_num].
  rewrite Z.max_l by lia.
  apply Z.lt_succ_r, Z.div_lt_upper_bound; lia.
Qed.

Lemma in_range_later (t t' : Z) (w : World) :
  t <= t' -> in_range t w -> in_range t' w.
Proof.
  intros Hle [Hd Hrun]. split; [done|].
  intros Hr. destruct (Hrun Hr) as (s & r & Hs & Hrem & Hst & Hrd).
  exists s, r. repeat split; try done. lia.
Qed.

Lemma in_range_step (e : Env) (ev : Event) (w : World) :
  wf w -> in_range (now e) w -> in_range (now e) (step e ev w).
Proof.
  intros [Hm Ht Hbi Hbt Hr] [Hd Hrun]. unfold in_range, totalDuration in *.
  destruct (running (st w)) eqn:Hrunning.
  - destruct Hr as (s & r & id & Hs & Hrem & Hid & Hlive).
    destruct (Hrun eq_refl) as (s' & r' & Hs' & Hrem' & Hst & Hrd).
    rewrite Hs in Hs'. rewrite Hrem in Hrem'. simplify_eq.
    pose proof (ceiling_below_anchor e w s' r' Hs Hrem Hst) as Hceil.
    open_world w. open_env e. read_fields. subst.
    destruct ev as [ | | m | | j | | a ].
    + destruct wmode; run_cmds; (split; [done | discriminate]).
    + destruct wmode; run_cmds; (split; [done | discriminate]).
    + destruct m, wmode; run_cmds; (split; [done | discriminate]).
    + destruct wmode; run_cmds; (split; [done | eauto 10]).
    + destruct (tm !! j) as [[ | | ]|] eqn:Hj; run_head; rewrite ?Hj; run_head.
      * destruct (Qle_bool _ _) eqn:Hq in Hceil |- *.
        -- destruct down, wmode; run_head; open_audio wctx wnew; run_cmds;
             (split; [done | discriminate]).
        -- specialize (Hceil eq_refl).
           destruct wmode; cbn [MODES duration] in *; run_cmds;
             (split; [lia | eauto 10]).
      * destruct wmode; open_audio wctx wnew; run_cmds;
          (split; [done | eauto 10]).
      * destruct wmode; run_cmds; (split; [done | eauto 10]).
      * destruct wmode; run_cmds; (split; [done | eauto 10]).
    + run_head. destruct (Qle_bool _ _) eqn:Hq in Hceil |- *.
      * destruct down, wmode; run_head; open_audio wctx wnew; run_cmds;
          (split; [done | discriminate]).
      * specialize (Hceil eq_refl).
        destruct wmode; cbn [MODES duration] in *; run_cmds;
             (split; [lia | eauto 10]).
    + destruct wctx, wmode; run_cmds; (split; [done | eauto 10]).
  - destruct Hr as [Hs Hid]. clear Hrun.
    open_world w. open_env e. read_fields. subst.
    destruct ev as [ | | m | | j | | a ].
    + destruct wmode; run_cmds;
        (split; [done | intros _; eexists _, _; repeat split; try done; lia]).
    + destruct wmode; run_cmds; (split; [done | discriminate]).
    + destruct m, wmode; run_cmds; (split; [done | discriminate]).
    + destruct wmode; run_cmds; (split; [done | discriminate]).
    + destruct (tm !! j) as [[ | | ]|] eqn:Hj.
      * apply Ht in Hj. discriminate.
      * destruct wmode; run_head; rewrite Hj; run_head; open_audio wctx wnew;
          run_cmds; (split; [done | discriminate]).
      * destruct wmode; run_head; rewrite Hj; run_cmds; (split; [done | discriminate]).
      * destruct wmode; run_head; rewrite Hj; run_cmds; (split; [done | discriminate]).
    + destruct wmode; run_cmds; (split; [done | discriminate]).
    + destruct wctx, wmode; run_cmds; (split; [done | discriminate]).
Qed.

Lemma in_range_run (evs : list (Env * Event)) (t : Z) (w : World) :
  wf w -> in_range t w -> forward t evs ->
  wf (run evs w) /\ exists t', in_range t' (run evs w).
Proof.
  revert t w. induction evs as [|[e ev] evs IH]; intros t w Hwf Hin Hfw.
  - cbn. eauto.
  - destruct Hfw as [Hle Hfw]. cbn [run].
    apply (IH (now e)); [by apply wf_step | | done].
    apply in_range_step; [done|]. by apply (in_range_later t).
Qed.

Lemma run_timeLeft_nonneg (evs : list (Env * Event)) (w : World) :
  0 <= timeLeft (st w) -> 0 <= timeLeft (st (run evs w)).
Proof.
  revert w. induction evs as [|[e ev] evs IH]; intros w Hw; cbn [run]; [done|].
  by apply IH, step_timeLeft_nonneg.
Qed.

Lemma run_timeLeft_pos (evs : list (Env * Event)) (w : World) :
  AudioCtx w <> None ->
  1 <= timeLeft (st w) -> 1 <= timeLeft (st (run evs w)).
Proof.
  revert w. induction evs as [|[e ev] evs IH]; intros w Ha Hw; cbn [run]; [done|].
  apply IH; [by rewrite step_AudioCtx | by apply step_timeLeft_pos].
Qed.

(** X2. Under a clock that does not run backwards, the displayed time stays
    between 0 and the full duration of the mode, so the progress ring is
    filled by a fraction in [0, 1]; with an [AudioContext] the displayed
    time is at least 1 and the fraction is below 1. *)
Theorem display_within_duration
    (audio : option AudioState) (store : gmap string string) (t : Z)
    (evs : list (Env * Event)) :
  forward t evs ->
  0 <= timeLeft (st (run evs (mount_in audio store)))
    <= totalDuration (st (run evs (mount_in audio store))) /\
  (0 <= progress (st (run evs (mount_in audio store))))%Q /\
  (progress (st (run evs (mount_in audio store))) <= 1)%Q /\
  (audio <> None ->
   1 <= timeLeft (st (run evs (mount_in audio store))) /\
   (progress (st (run evs (mount_in audio store))) < 1)%Q).
Proof.
  intros Hfw.
  assert (Hlo : 0 <= timeLeft (st (run evs (mount_in audio store)))).
  { apply run_timeLeft_nonneg. vm_compute. discriminate. }
  assert (Hpos : audio <> None ->
                 1 <= timeLeft (st (run evs (mount_in audio store)))).
  { intros Ha. apply run_timeLeft_pos; [exact Ha | vm_compute; discriminate]. }
  destruct (in_range_run evs t (mount_in audio store)) as [_ [t' [Hhi _]]];
    [apply wf_mount | | done |].
  { split; [vm_compute; discriminate | discriminate]. }
  split; [done|].
  unfold progress. revert Hlo Hpos Hhi. unfold totalDuration.
  generalize (timeLeft (st (run evs (mount_in audio store)))) as left.
  destruct (mode (st (run evs (mount_in audio store)))); cbn [MODES duration];
    intros left Hlo Hpos Hhi;
    (split; [|split; [|intros Ha; specialize (Hpos Ha); split; [done|]]]);
    unfold Qle, Qlt, Qdiv, Qmult, Qinv, inject_Z; simpl; lia.
Qed.

Lemma display_within_duration_witness :
  0 <= timeLeft (st (run paused_session (mount_in (Some audio_suspended) ∅)))
    <= totalDuration (st (run paused_session (mount_in (Some audio_suspended) ∅))) /\
  (0 <= progress (st (run paused_session (mount_in (Some audio_suspended) ∅))))%Q /\
  (progress (st (run paused_session (mount_in (Some audio_suspended) ∅))) <= 1)%Q /\
  (Some audio_suspended <> None ->
   1 <= timeLeft (st (run paused_session (mount_in (Some audio_suspended) ∅))) /\
   (progress (st (run paused_session (mount_in (Some audio_suspended) ∅))) < 1)%Q).
Proof.
  apply (display_within_duration (Some audio_suspended) ∅ 0 paused_session).
  vm_compute. repeat split; discriminate.
Defined.

(** With a clock that jumps back, the display exceeds the full duration. *)
Example clock_set_back_overshoots :
  timeLeft (st (step (env_at (-60000)) (TimerFired 1) started)) = 1560.
Proof. vm_compute. reflexivity. Qed.

(** ** No drift *)

Lemma recompute_positive (e : Env) (ev : Event) (w : World) :
  recomputes w ev = true ->
  Qle_bool (remaining e w) 0 = false ->
  step e ev w = setTimeLeft (Qceiling (remaining e w)) w.
Proof.
  intros Hev Hq.
  apply recomputes_cases in Hev as [(id & -> & Hid) | (-> & Hrun & Hs)];
    open_world w; open_env e; read_fields; subst.
  - destruct wmode, wrun; run_head; rewrite Hid; run_head; rewrite Hq;
      run_cmds; reflexivity.
  - destruct wmode, wstart; try done; run_head; rewrite Hq; run_cmds;
      reflexivity.
Qed.

Lemma step_forgets_display (e : Env) (ev : Event) (w : World) (c : Z) :
  recomputes w ev = true ->
  step e ev (setTimeLeft c w) = step e ev w.
Proof.
  intros Hev.
  pose proof (remaining_now e e (setTimeLeft c w) w eq_refl eq_refl) as Hrem.
  apply recomputes_cases in Hev as [(id & -> & Hid) | (-> & Hrun & Hs)];
    open_world w; open_env e; read_fields; subst;
    lazy beta iota zeta delta [setTimeLeft withSt st refs bell ctx AudioCtx
                                 timers nextId storage calls mode running
                                 sessions dailySessions loaded bellActive
                                 alertMsg] in *.
  - run_head. rewrite Hid, Hrem. run_head.
    destruct (Qle_bool _ _); run_head; audio_cases wctx wnew;
      destruct down, wmode, wmref, wrun, wivl; run_cmds; reflexivity.
  - destruct wstart; [|done]. run_head. rewrite Hrem.
    destruct (Qle_bool _ _); run_head; audio_cases wctx wnew;
      destruct down, wmode, wmref, wivl; run_cmds; reflexivity.
Qed.

(** X3. The countdown does not drift: a recomputation that does not expire
    only refreshes the display, so after any such tick the next tick or
    visibility change leaves the world exactly as if the earlier one had
    never fired. *)
Theorem ticks_do_not_accumulate (e1 e2 : Env) (ev1 ev2 : Event) (w : World) :
  recomputes w ev1 = true ->
  recomputes w ev2 = true ->
  (0 < remaining e1 w)%Q ->
  step e2 ev2 (step e1 ev1 w) = step e2 ev2 w.
Proof.
  intros H1 H2 Hpos.
  rewrite (recompute_positive e1 ev1 w H1).
  - by apply step_forgets_display.
  - apply not_true_is_false. rewrite Qle_bool_iff. by apply Qlt_not_le.
Qed.

Lemma ticks_do_not_accumulate_witness :
  step (env_at 1500000) VisibilityChange (step (env_at 10500) (TimerFired 1) started)
  = step (env_at 1500000) VisibilityChange started.
Proof.
  apply (ticks_do_not_accumulate (env_at 10500) (env_at 1500000)
           (TimerFired 1) VisibilityChange started);
    vm_compute; reflexivity.
Defined.

(** X4. The recomputed remaining time, and with it the displayed value,
    never goes up as the clock goes forward. *)
Theorem remaining_decreases (e1 e2 : Env) (w : World) :
  now e1 <= now e2 ->
  (remaining e2 w <= remaining e1 w)%Q /\
  Qceiling (remaining e2 w) <= Qceiling (remaining e1 w).
Proof.
  intros Hle. split.
  - rewrite !remaining_ms. unfold Qle; simpl. lia.
  - rewrite !ceiling_remaining. apply Z.div_le_mono; lia.
Qed.

Lemma remaining_decreases_witness :
  (remaining (env_at 20000) started <= remaining (env_at 10500) started)%Q /\
  Qceiling (remaining (env_at 20000) started)
  <= Qceiling (remaining (env_at 10500) started).
Proof.
  apply (remaining_decreases (env_at 10500) (env_at 20000) started).
  vm_compute. discriminate.
Defined.

(** ** While the timer is stopped *)

(** X5. A stopped timer stays as it is: in a reachable world that is not
    running, no timer that fires and no visibility change alters the
    component's state, its refs or the store. *)
Theorem stopped_timer_is_frozen (e : Env) (ev : Event) (w : World) :
  reachable w ->
  running (st w) = false ->
  clockwork ev = true ->
  st (step e ev w) = st w /\
  refs (step e ev w) = refs w /\
  storage (step e ev w) = storage w.
Proof.
  intros Hreach Hrun Hev. apply reachable_wf in Hreach as [Hm Ht Hbi Hbt Hr].
  open_world w. open_env e. read_fields. subst. destruct Hr as [-> ->].
  destruct ev as [ | | m | | j | | a ]; try discriminate.
  - destruct (tm !! j) as [[ | | ]|] eqn:Hj.
    + apply Ht in Hj. discriminate.
    + destruct wmode; run_head; rewrite Hj; run_head; open_audio wctx wnew;
        run_cmds; done.
    + destruct wmode; run_head; rewrite Hj; run_cmds; done.
    + destruct wmode; run_head; rewrite Hj; run_cmds; done.
  - destruct wmode; run_cmds; done.
Qed.

Lemma stopped_timer_is_frozen_witness :
  st (step (env_at 99000) VisibilityChange
        (step (env_at 10100) ClickStartPause ticked_10s))
  = st (step (env_at 10100) ClickStartPause ticked_10s) /\
  refs (step (env_at 99000) VisibilityChange
          (step (env_at 10100) ClickStartPause ticked_10s))
  = refs (step (env_at 10100) ClickStartPause ticked_10s) /\
  storage (step (env_at 99000) VisibilityChange
             (step (env_at 10100) ClickStartPause ticked_10s))
  = storage (step (env_at 10100) ClickStartPause ticked_10s).
Proof.
  apply (stopped_timer_is_frozen (env_at 99000) VisibilityChange
           (step (env_at 10100) ClickStartPause ticked_10s)).
  - apply reach_step, reach_step, reach_step, reach_mount.
  - vm_compute. reflexivity.
  - reflexivity.
Defined.

(** X6. There is never more than one tick loop: in every reachable world a
    live tick timer is the one [intervalRef] names, a running timer has
    it live, and a stopped timer has none. *)
Theorem single_tick_loop (w : World) :
  reachable w ->
  (forall i j, timers w !! i = Some TickTask ->
               timers w !! j = Some TickTask -> i = j) /\
  (forall j, timers w !! j = Some TickTask -> intervalRef (refs w) = Some j) /\
  (running (st w) = true ->
   exists id, intervalRef (refs w) = Some id /\ timers w !! id = Some TickTask) /\
  (running (st w) = false ->
   forall j, timers w !! j <> Some TickTask).
Proof.
  intros Hreach. apply reachable_wf in Hreach as [Hm Ht Hbi Hbt Hr].
  split; [|split; [|split]].
  - intros i j Hi Hj. apply Ht in Hi, Hj. congruence.
  - exact Ht.
  - intros Hrun. rewrite Hrun in Hr.
    destruct Hr as (s & r & id & _ & _ & Hid & Hlive). eauto.
  - intros Hrun j Hj. rewrite Hrun in Hr. destruct Hr as [_ Hnone].
    apply Ht in Hj. congruence.
Qed.

Lemma single_tick_loop_witness :
  (forall i j, timers last_second !! i = Some TickTask ->
               timers last_second !! j = Some TickTask -> i = j) /\
  (forall j, timers last_second !! j = Some TickTask ->
             intervalRef (refs last_second) = Some j) /\
  (running (st last_second) = true ->
   exists id, intervalRef (refs last_second) = Some id /\
              timers last_second !! id = Some TickTask) /\
  (running (st last_second) = false ->
   forall j, timers last_second !! j <> Some TickTask).
Proof.
  apply (single_tick_loop last_second). apply reachable_run, reach_mount.
Defined.

(** X7. Unmounting a reachable world leaves no tick timer live, and the
    timers the bell manager held are dead and forgotten. *)
Theorem unmount_cancels (w : World) :
  reachable w ->
  (forall j, timers (unmount w) !! j <> Some TickTask) /\
  intervalRef (refs (unmount w)) = None /\
  bell (unmount w) = {| intervalId := None; timeoutId := None |} /\
  (forall i, intervalId (bell w) = Some i -> timers (unmount w) !! i = None) /\
  (forall i, timeoutId (bell w) = Some i -> timers (unmount w) !! i = None).
Proof.
  intros Hreach. apply reachable_wf in Hreach as [Hm Ht Hbi Hbt Hr].
  open_world w. read_fields.
  unfold unmount.
  destruct wivl, bivl, btmo; run_cmds;
    (split; [|split; [done|split; [done|split]]]); intros; simplify_eq;
    try done.
  all: try (rewrite !lookup_delete; repeat case_decide; done).
  all: intros Hj; map_facts; apply Ht in Hj; congruence.
Qed.

Lemma unmount_cancels_witness :
  (forall j, timers (unmount second_alert) !! j <> Some TickTask) /\
  intervalRef (refs (unmount second_alert)) = None /\
  bell (unmount second_alert) = {| intervalId := None; timeoutId := None |} /\
  (forall i, intervalId (bell second_alert) = Some i ->
             timers (unmount second_alert) !! i = None) /\
  (forall i, timeoutId (bell second_alert) = Some i ->
             timers (unmount second_alert) !! i = None).
Proof.
  apply (unmount_cancels second_alert). apply reachable_run, reach_mount.
Defined.

(** ** Modes *)

(** X8. The long break is never entered on its own: unless the long-break
    tab is selected, a step from another mode does not end in the long
    break, and it changes the mode only when a tab is selected or a
    session expires. *)
Theorem long_break_only_by_tab (e : Env) (ev : Event) (w : World) :
  mode (st w) <> long ->
  ev <> ClickTab long ->
  mode (st (step e ev w)) <> long /\
  (mode (st (step e ev w)) = mode (st w) \/
   ev = ClickTab (mode (st (step e ev w))) \/
   expiries (step e ev w) = S (expiries w)).
Proof.
  unfold expiries. destruct (step_st e ev w) as [-> ->].
  open_world w. open_env e. read_fields. intros Hmode Hev.
  destruct ev as [ | | m | | j | | a ].
  - destruct wrun; run_cmds; auto.
  - run_cmds; auto.
  - run_cmds. split; [congruence | auto].
  - run_cmds; auto.
  - destruct (tm !! j) as [[ | | ]|] eqn:Hj; run_head; rewrite ?Hj; run_head.
    + destruct (Qle_bool _ _); run_head; audio_cases wctx wnew;
        destruct down, wmref; run_cmds; auto.
    + open_audio wctx wnew; run_cmds; auto.
    + run_cmds; auto.
    + run_cmds; auto.
  - destruct wrun, wstart; run_head;
      lazymatch goal with
      | |- context [Qle_bool _ _] =>
          destruct (Qle_bool _ _); run_head; audio_cases wctx wnew;
          destruct down, wmref; run_cmds; auto
      | |- _ => run_cmds; auto
      end.
  - destruct wctx; run_cmds; auto.
Qed.

Lemma long_break_only_by_tab_witness :
  mode (st (step (env_at 1800100) (TimerFired 4) on_break)) <> long /\
  (mode (st (step (env_at 1800100) (TimerFired 4) on_break)) = mode (st on_break) \/
   TimerFired 4 = ClickTab (mode (st (step (env_at 1800100) (TimerFired 4) on_break))) \/
   expiries (step (env_at 1800100) (TimerFired 4) on_break) = S (expiries on_break)).
Proof.
  apply (long_break_only_by_tab (env_at 1800100) (TimerFired 4) on_break).
  - vm_compute. discriminate.
  - discriminate.
Defined.

(** ** The bell and its banner *)

Lemma bell_ok_mount (audio : option AudioState) (store : gmap string string) :
  bell_ok (mount_in audio store).
Proof. split; cbn; done. Qed.

Lemma bell_ok_step (e : Env) (ev : Event) (w : World) :
  bell_ok w -> bell_ok (step e ev w).
Proof.
  intros [Hids Hban Hmsg].
  open_world w. open_env e. read_fields.
  destruct ev as [ | | m | | j | | a ].
  - destruct wmode, wrun, wstart; run_cmds; split; run_cmds; done.
  - destruct wmode, wrun; run_cmds; split; run_cmds; done.
  - destruct m, wmode, wrun; run_cmds; split; run_cmds; done.
  - destruct wmode, wrun; run_cmds; split; run_cmds; done.
  - destruct (tm !! j) as [[ | | ]|] eqn:Hj; run_head; rewrite ?Hj; run_head.
    + destruct (Qle_bool _ _); run_head; audio_cases wctx wnew;
        destruct down, wmode, wmref, wrun;
        run_cmds; split; run_cmds; try done; auto; intros; discriminate.
    + destruct wmode, wrun; open_audio wctx wnew; run_cmds; split; run_cmds;
        done.
    + destruct wmode, wrun; run_cmds; split; run_cmds; done.
    + destruct wmode, wrun; run_cmds; split; run_cmds; done.
  - destruct wrun, wstart; run_head;
      lazymatch goal with
      | |- context [Qle_bool _ _] =>
          destruct (Qle_bool _ _); run_head; audio_cases wctx wnew;
          destruct down, wmode, wmref;
          run_cmds; split; run_cmds; try done; auto; intros; discriminate
      | _ => destruct wmode; run_cmds; split; run_cmds; done
      end.
  - destruct wctx, wmode, wrun; run_cmds; split; run_cmds; done.
Qed.

Lemma bell_ok_loaded (n : Z) (w : World) : bell_ok w -> bell_ok (onLoaded n w).
Proof. intros [Hids Hban Hmsg]. open_world w. split; run_cmds; done. Qed.

(** X9. In every reachable world the bell manager holds both of its timers
    or neither; while it holds them the banner is up; and the banner's text
    is one of the two expiry messages while it is up and empty otherwise. *)
Theorem bell_and_banner (w : World) :
  reachable w ->
  (intervalId (bell w) = None <-> timeoutId (bell w) = None) /\
  (intervalId (bell w) <> None -> bellActive (st w) = true) /\
  (bellActive (st w) = true ->
   alertMsg (st w) = "🎯 Focus session complete! Time for a break." \/
   alertMsg (st w) = "☕ Break is over! Let's get back to work.") /\
  (bellActive (st w) = false -> alertMsg (st w) = "").
Proof.
  intros Hreach.
  assert (Hok : bell_ok w).
  { induction Hreach; auto using bell_ok_mount, bell_ok_step, bell_ok_loaded. }
  destruct Hok as [Hids Hban Hmsg].
  split; [done|]. split; [done|].
  split; intros Hb; rewrite Hb in Hmsg; done.
Qed.

Lemma bell_and_banner_witness :
  (intervalId (bell second_alert) = None <-> timeoutId (bell second_alert) = None) /\
  (intervalId (bell second_alert) <> None -> bellActive (st second_alert) = true) /\
  (bellActive (st second_alert) = true ->
   alertMsg (st second_alert) = "🎯 Focus session complete! Time for a break." \/
   alertMsg (st second_alert) = "☕ Break is over! Let's get back to work.") /\
  (bellActive (st second_alert) = false -> alertMsg (st second_alert) = "").
Proof.
  apply (bell_and_banner second_alert). apply reachable_run, reach_mount.
Defined.

(** X10. Dismissing the alert kills the two timers the bell manager holds
    and no other, empties the manager, and takes the banner down. *)
Theorem dismiss_silences (e : Env) (w : World) (i t : nat) :
  intervalId (bell w) = Some i ->
  timeoutId (bell w) = Some t ->
  timers (step e ClickDismiss w) !! i = None /\
  timers (step e ClickDismiss w) !! t = None /\
  (forall j, j <> i -> j <> t ->
             timers (step e ClickDismiss w) !! j = timers w !! j) /\
  bell (step e ClickDismiss w) = {| intervalId := None; timeoutId := None |} /\
  bellActive (st (step e ClickDismiss w)) = false /\
  alertMsg (st (step e ClickDismiss w)) = "".
Proof.
  intros Hi Ht. open_world w. open_env e. read_fields. subst.
  destruct wmode, wrun; run_cmds;
    (split; [|split; [|split; [|done]]]);
    try (rewrite !lookup_delete; repeat case_decide; done);
    intros j Hji Hjt; by rewrite !lookup_delete_ne.
Qed.

Lemma dismiss_silences_witness :
  timers (step (env_at 1500200) ClickDismiss on_break) !! 2%nat = None /\
  timers (step (env_at 1500200) ClickDismiss on_break) !! 3%nat = None /\
  (forall j, j <> 2%nat -> j <> 3%nat ->
             timers (step (env_at 1500200) ClickDismiss on_break) !! j
             = timers on_break !! j) /\
  bell (step (env_at 1500200) ClickDismiss on_break)
  = {| intervalId := None; timeoutId := None |} /\
  bellActive (st (step (env_at 1500200) ClickDismiss on_break)) = false /\
  alertMsg (st (step (env_at 1500200) ClickDismiss on_break)) = "".
Proof.
  apply (dismiss_silences (env_at 1500200) on_break 2 3);
    vm_compute; reflexivity.
Defined.

(** X11. When the bell's 60 s timeout fires, the ringing stops by itself:
    both timers the manager holds are dead and it holds none, while the
    banner and its text stay up until dismissed and the timer state is
    untouched. *)
Theorem auto_stop_silences (e : Env) (w : World) (i t : nat) :
  intervalId (bell w) = Some i ->
  timeoutId (bell w) = Some t ->
  timers w !! t = Some BellAutoStop ->
  timers (step e (TimerFired t) w) !! i = None /\
  timers (step e (TimerFired t) w) !! t = None /\
  (forall j, j <> i -> j <> t ->
             timers (step e (TimerFired t) w) !! j = timers w !! j) /\
  bell (step e (TimerFired t) w) = {| intervalId := None; timeoutId := None |} /\
  st (step e (TimerFired t) w) = st w /\
  refs (step e (TimerFired t) w) = refs w.
Proof.
  intros Hi Ht Hlive. open_world w. open_env e. read_fields. subst.
  destruct wmode, wrun; run_head; rewrite Hlive; run_cmds;
    (split; [|split; [|split; [|done]]]);
    try (rewrite !lookup_delete; repeat case_decide; done);
    intros j Hji Hjt; by rewrite !lookup_delete_ne.
Qed.

Lemma auto_stop_silences_witness :
  timers (step (env_at 1560000) (TimerFired 3) on_break) !! 2%nat = None /\
  timers (step (env_at 1560000) (TimerFired 3) on_break) !! 3%nat = None /\
  (forall j, j <> 2%nat -> j <> 3%nat ->
             timers (step (env_at 1560000) (TimerFired 3) on_break) !! j
             = timers on_break !! j) /\
  bell (step (env_at 1560000) (TimerFired 3) on_break)
  = {| intervalId := None; timeoutId := None |} /\
  st (step (env_at 1560000) (TimerFired 3) on_break) = st on_break /\
  refs (step (env_at 1560000) (TimerFired 3) on_break) = refs on_break.
Proof.
  apply (auto_stop_silences (env_at 1560000) on_break 2 3);
    vm_compute; reflexivity.
Defined.

Example banner_outlives_the_bell :
  bellActive (st (step (env_at 1560000) (TimerFired 3) on_break)) = true /\
  bell_loops (step (env_at 1560000) (TimerFired 3) on_break) = 0%nat.
Proof. vm_compute. split; reflexivity. Qed.

(** X12. With an [AudioContext], an expiry raises the alert: a context is
    at hand afterwards, the bell strikes once at once and its 4 s interval
    and 60 s timeout go live under the ids the manager now holds, the banner
    shows the message of the mode that ended, and no tick timer or anchor is
    left. *)
Theorem expiry_rings (e : Env) (ev : Event) (w : World) (s r : Z) :
  reachable w ->
  AudioCtx w <> None ->
  running (st w) = true ->
  startedAtRef (refs w) = Some s ->
  remainingAtStart (refs w) = Some r ->
  recomputes w ev = true ->
  s + 1000 * r <= now e ->
  ctx (step e ev w) <> None /\
  strikes (step e ev w) = S (strikes w) /\
  expiries (step e ev w) = S (expiries w) /\
  bell (step e ev w)
  = {| intervalId := Some (nextId w); timeoutId := Some (S (nextId w)) |} /\
  timers (step e ev w) !! nextId w = Some BellRing /\
  timers (step e ev w) !! S (nextId w) = Some BellAutoStop /\
  bellActive (st (step e ev w)) = true /\
  alertMsg (st (step e ev w))
  = (if ModeKey_eqb (mode (st w)) focus
     then "🎯 Focus session complete! Time for a break."
     else "☕ Break is over! Let's get back to work.") /\
  (forall j, timers (step e ev w) !! j <> Some TickTask) /\
  intervalRef (refs (step e ev w)) = None /\
  startedAtRef (refs (step e ev w)) = None.
Proof.
  intros Hreach Haudio Hrun Hs Hr Hev Hnow.
  apply reachable_wf in Hreach as [Hm Ht _ _ Hwr].
  assert (Hq : Qle_bool (remaining e w) 0 = true).
  { apply expired_iff. rewrite Hs, Hr. cbn. lia. }
  rewrite Hrun in Hwr. destruct Hwr as (s' & r' & id & _ & _ & Hid & Hlive).
  unfold strikes, expiries.
  apply recomputes_cases in Hev as [(j & -> & Hj) | (-> & _ & _)];
    open_world w; open_env e; read_fields; subst;
    (destruct wnew as [anew|]; [clear Haudio | done]).
  - destruct down, wmode; run_head; rewrite Hj; run_head; rewrite Hq;
      run_head; open_ctx wctx anew;
      run_cmds; repeat (split; [try done; simplify_map_eq; done|]);
      (split; [|done]); intros k Hk; map_facts; apply Ht in Hk; congruence.
  - destruct down, wmode; run_head; rewrite Hq; run_head; open_ctx wctx anew;
      run_cmds; repeat (split; [try done; simplify_map_eq; done|]);
      (split; [|done]); intros k Hk; map_facts; apply Ht in Hk; congruence.
Qed.

Lemma expiry_rings_witness :
  ctx (step (env_at 1800100) VisibilityChange on_break) <> None /\
  strikes (step (env_at 1800100) VisibilityChange on_break)
  = S (strikes on_break) /\
  expiries (step (env_at 1800100) VisibilityChange on_break)
  = S (expiries on_break) /\
  bell (step (env_at 1800100) VisibilityChange on_break)
  = {| intervalId := Some (nextId on_break);
       timeoutId := Some (S (nextId on_break)) |} /\
  timers (step (env_at 1800100) VisibilityChange on_break) !! nextId on_break
  = Some BellRing /\
  timers (step (env_at 1800100) VisibilityChange on_break) !! S (nextId on_break)
  = Some BellAutoStop /\
  bellActive (st (step (env_at 1800100) VisibilityChange on_break)) = true /\
  alertMsg (st (step (env_at 1800100) VisibilityChange on_break))
  = (if ModeKey_eqb (mode (st on_break)) focus
     then "🎯 Focus session complete! Time for a break."
     else "☕ Break is over! Let's get back to work.") /\
  (forall j, timers (step (env_at 1800100) VisibilityChange on_break) !! j
             <> Some TickTask) /\
  intervalRef (refs (step (env_at 1800100) VisibilityChange on_break)) = None /\
  startedAtRef (refs (step (env_at 1800100) VisibilityChange on_break)) = None.
Proof.
  apply (expiry_rings (env_at 1800100) VisibilityChange on_break 1500100 300).
  - apply reachable_run, reach_mount.
  - vm_compute. discriminate.
  - vm_compute. reflexivity.
  - vm_compute. reflexivity.
  - vm_compute. reflexivity.
  - vm_compute. reflexivity.
  - vm_compute. discriminate.
Defined.

(** ** The store *)

Lemma commit_storage (prev : Comp) (e : Env) (w : World) :
  storage (commit prev e w) = storage w.
Proof.
  open_world w. open_env e.
  destruct prev as [pmode ptime prun psess pdaily ploaded pbell pmsg].
  destruct pmode, wmode, prun, wrun, wstart, wivl; run_cmds; done.
Qed.

Lemma step_storage (e : Env) (ev : Event) (w : World) :
  (dailySessions (st (step e ev w)) = dailySessions (st w) /\
   storage (step e ev w) = storage w) \/
  (dailySessions (st (step e ev w)) = dailySessions (st w) + 1 /\
   storage (step e ev w)
   = if storageDown e then storage w
     else <[todayKey e := js_String (dailySessions (st w) + 1)]> (storage w)).
Proof.
  rewrite (proj1 (step_st e ev w)).
  unfold step, reading, andThen, uncaught. rewrite commit_storage.
  open_world w. open_env e. read_fields.
  destruct ev as [ | | m | | j | | a ].
  - left. destruct wrun; run_cmds; done.
  - left. run_cmds; done.
  - left. run_cmds; done.
  - left. run_cmds; done.
  - destruct (tm !! j) as [[ | | ]|] eqn:Hj; run_head; rewrite ?Hj; run_head.
    + destruct (Qle_bool _ _); run_head; audio_cases wctx wnew;
        destruct down, wmref; run_cmds; first [ left; done | right; done ].
    + left. open_audio wctx wnew; run_cmds; done.
    + left. run_cmds; done.
    + left. run_cmds; done.
  - destruct wrun, wstart; run_head; try (left; run_cmds; done).
    destruct (Qle_bool _ _); run_head; audio_cases wctx wnew;
      destruct down, wmref; run_cmds; first [ left; done | right; done ].
  - left. destruct wctx; run_cmds; done.
Qed.

(** X13. The store is only ever written under today's key and never
    emptied: a step leaves every other key as it was, keeps every key that
    was present, and what it writes under today's key is the daily counter
    it has just reached. *)
Theorem store_written_under_today (e : Env) (ev : Event) (w : World) :
  (forall k, k <> todayKey e -> storage (step e ev w) !! k = storage w !! k) /\
  (forall k, is_Some (storage w !! k) -> is_Some (storage (step e ev w) !! k)) /\
  (storage (step e ev w) !! todayKey e = storage w !! todayKey e \/
   storage (step e ev w) !! todayKey e
   = Some (js_String (dailySessions (st (step e ev w))))).
Proof.
  destruct (step_storage e ev w) as [[Hd ->] | [Hd ->]].
  - auto.
  - destruct (storageDown e); [auto|]. rewrite Hd.
    split; [|split].
    + intros k Hk. by rewrite lookup_insert_ne.
    + intros k Hk. destruct (decide (todayKey e = k)) as [<-|Hne].
      * rewrite lookup_insert_eq. eauto.
      * by rewrite lookup_insert_ne.
    + right. by rewrite lookup_insert_eq.
Qed.

Lemma read_js_String (n : Z) : read_field (js_String n) = Some n.
Proof.
  unfold read_field, js_String.
  rewrite NilZero.isi.
  - cbn. by rewrite DecimalZ.of_to.
  - destruct n; try discriminate.
    intros [= H]. by apply DecimalPos.Unsigned.to_uint_nonnil in H.
  - destruct n; try discriminate.
    intros [= H]. by apply DecimalPos.Unsigned.to_uint_nonnil in H.
Qed.

Lemma Number_of_decimal_String (n : Z) : Number_of_decimal (js_String n) = n.
Proof. unfold Number_of_decimal. by rewrite read_js_String. Qed.

(** X14. The daily counter survives a restart: once a step has raised it
    with the store up, a component mounted over that store on the same day
    loads the very count (when [Number] reads back what [String] wrote),
    and on a day whose key the store lacks it loads 0. *)
Theorem saved_count_reloads
    (Number : string -> Z) (e e' e'' : Env) (ev : Event) (w : World) :
  storageDown e = false ->
  dailySessions (st (step e ev w)) <> dailySessions (st w) ->
  Number (js_String (dailySessions (st (step e ev w))))
  = dailySessions (st (step e ev w)) ->
  storageDown e' = false ->
  todayKey e' = todayKey e ->
  todayKey e'' <> todayKey e ->
  storage w !! todayKey e'' = None ->
  loadTodaySessions Number e' (mount (storage (step e ev w)))
  = Ok (dailySessions (st (step e ev w))) /\
  loadTodaySessions Number e'' (mount (storage (step e ev w))) = Ok 0.
Proof.
  intros Hup Hchg Hnum Hup' Hkey Hother Habsent.
  destruct (step_storage e ev w) as [[Hd _] | [Hd Hsto]]; [done|].
  rewrite Hup in Hsto.
  unfold loadTodaySessions, storage_get, try_catch, then_.
  rewrite Hup'. cbn [mount mount_in storage].
  rewrite Hsto, Hkey, lookup_insert_eq.
  split.
  - rewrite <- Hd. by rewrite Hnum.
  - rewrite lookup_insert_ne, Habsent by done. by destruct (storageDown e'').
Qed.

Lemma saved_count_reloads_witness :
  loadTodaySessions Number_of_decimal (env_at 1600000)
    (mount (storage (step (env_at 1500000) (TimerFired 1) started)))
  = Ok (dailySessions (st (step (env_at 1500000) (TimerFired 1) started))) /\
  loadTodaySessions Number_of_decimal (env_next_day 90000000)
    (mount (storage (step (env_at 1500000) (TimerFired 1) started)))
  = Ok 0.
Proof.
  apply (saved_count_reloads Number_of_decimal (env_at 1500000) (env_at 1600000)
           (env_next_day 90000000) (TimerFired 1) started).
  - reflexivity.
  - vm_compute. discriminate.
  - vm_compute. reflexivity.
  - reflexivity.
  - vm_compute. reflexivity.
  - vm_compute. discriminate.
  - vm_compute. reflexivity.
Defined.

(** ** Keys and the clock face *)

Lemma dashless_uint (u : Decimal.uint) :
  dashless (NilEmpty.string_of_uint u) = true.
Proof. induction u; cbn; done. Qed.

Lemma dashless_js_String (n : Z) : 0 <= n -> dashless (js_String n) = true.
Proof.
  intros Hn. unfold js_String. destruct n as [|p|p]; [done| |lia].
  cbn. destruct (Pos.to_uint p); try apply dashless_uint. done.
Qed.

Lemma dashless_cycle (k : nat) (rest : string) :
  dashless rest = true -> dashless (cycle k "0" rest) = true.
Proof.
  revert rest. induction k as [|k IH]; intros rest Hr; [done|].
  destruct rest as [|c rest]; cbn [cycle dashless].
  - apply andb_true_iff. split; [done | by apply IH].
  - cbn [dashless] in Hr. apply andb_true_iff in Hr as [Hc Hr].
    apply andb_true_iff. split; [done | by apply IH].
Qed.

Lemma dashless_app (a b : string) :
  dashless a = true -> dashless b = true -> dashless (a +:+ b) = true.
Proof.
  induction a as [|c a IH]; cbn [String.append dashless]; [done|].
  intros [Hc Ha]%andb_true_iff Hb.
  apply andb_true_iff. split; [done | by apply IH].
Qed.

Lemma dashless_pad (n : Z) : 0 <= n -> dashless (padStart 2 "0" (js_String n)) = true.
Proof.
  intros Hn. unfold padStart.
  apply dashless_app; [by apply dashless_cycle | by apply dashless_js_String].
Qed.

Lemma split_at_dash (a a' b b' : string) :
  dashless a = true -> dashless a' = true ->
  a +:+ String "-" b = a' +:+ String "-" b' ->
  a = a' /\ b = b'.
Proof.
  revert a'. induction a as [|c a IH]; intros [|c' a']; cbn.
  - intros _ _ [= ->]. done.
  - intros _ [Hc _]%andb_true_iff [= <- _]. done.
  - intros [Hc _]%andb_true_iff _ [= -> _]. done.
  - intros [_ Ha]%andb_true_iff [_ Ha']%andb_true_iff [= -> Heq].
    destruct (IH a' Ha Ha' Heq) as [-> ->]. done.
Qed.

(** Two-character fields read back: checked on all of 0..99. *)
Lemma pad2_read_all :
  forallb (fun k => let s := padStart 2 "0" (js_String (Z.of_nat k)) in
                    (String.length s =? 2)%nat &&
                    bool_decide (read_field s = Some (Z.of_nat k)))
          (seq 0 100) = true.
Proof. vm_compute. reflexivity. Qed.

Lemma pad2_read (n : Z) :
  0 <= n < 100 ->
  String.length (padStart 2 "0" (js_String n)) = 2%nat /\
  read_field (padStart 2 "0" (js_String n)) = Some n.
Proof.
  intros Hn. pose proof pad2_read_all as Hall.
  rewrite forallb_forall in Hall.
  assert (Hin : In (Z.to_nat n) (seq 0 100)) by (apply in_seq; lia).
  apply Hall in Hin. cbv beta zeta in Hin. rewrite Z2Nat.id in Hin by lia.
  apply andb_true_iff in Hin as [Hlen Hread].
  split; [by apply Nat.eqb_eq|].
  apply bool_decide_eq_true in Hread. exact Hread.
Qed.

(** X15. Different calendar days never share a key: the key of the store
    determines the year, the month and the day it was made from. *)
Theorem todayKey_injective (e e' : Env) :
  calendar e ->
  calendar e' ->
  todayKey e = todayKey e' ->
  fullYear e = fullYear e' /\ month e = month e' /\ date e = date e'.
Proof.
  intros (Hy & Hm & Hd) (Hy' & Hm' & Hd'). unfold todayKey. cbn [String.append].
  intros [= Hkey].
  apply split_at_dash in Hkey as [Hyear Hkey]; try by apply dashless_js_String.
  apply split_at_dash in Hkey as [Hmonth Hday];
    try (apply dashless_pad; lia).
  split; [|split].
  - apply (f_equal read_field) in Hyear. rewrite !read_js_String in Hyear.
    congruence.
  - apply (f_equal read_field) in Hmonth.
    rewrite (proj2 (pad2_read (month e + 1) ltac:(lia))) in Hmonth.
    rewrite (proj2 (pad2_read (month e' + 1) ltac:(lia))) in Hmonth.
    injection Hmonth. lia.
  - apply (f_equal read_field) in Hday.
    rewrite (proj2 (pad2_read (date e) ltac:(lia))) in Hday.
    rewrite (proj2 (pad2_read (date e') ltac:(lia))) in Hday.
    congruence.
Qed.

Lemma todayKey_injective_witness :
  fullYear (env_at 0) = fullYear (env_down 77) /\
  month (env_at 0) = month (env_down 77) /\
  date (env_at 0) = date (env_down 77).
Proof.
  apply (todayKey_injective (env_at 0) (env_down 77)).
  - vm_compute. repeat split; discriminate.
  - vm_compute. repeat split; discriminate.
  - vm_compute. reflexivity.
Defined.

(** X16. The clock face always has two characters for the minutes and two
    for the seconds, and reads back as the time left: for a displayed time
    below 100 minutes, the two fields are numbers [m] and [sec < 60] with
    [60 * m + sec = timeLeft]. *)
Theorem clock_face_reads_back (s : Comp) :
  0 <= timeLeft s < 6000 ->
  String.length (minutes s) = 2%nat /\
  String.length (seconds s) = 2%nat /\
  exists m sec,
    read_field (minutes s) = Some m /\
    read_field (seconds s) = Some sec /\
    0 <= sec < 60 /\
    60 * m + sec = timeLeft s.
Proof.
  intros Ht. unfold minutes, seconds.
  assert (Hm : 0 <= timeLeft s / 60 < 100).
  { split; [apply Z.div_pos; lia | apply Z.div_lt_upper_bound; lia]. }
  assert (Hrem : Z.rem (timeLeft s) 60 = timeLeft s mod 60).
  { apply Z.rem_mod_nonneg; lia. }
  pose proof (Z.mod_pos_bound (timeLeft s) 60 ltac:(lia)) as Hs.
  rewrite Hrem.
  destruct (pad2_read (timeLeft s / 60) Hm) as [Hl1 Hr1].
  destruct (pad2_read (timeLeft s mod 60) ltac:(lia)) as [Hl2 Hr2].
  split; [done|]. split; [done|].
  exists (timeLeft s / 60), (timeLeft s mod 60).
  repeat split; try done; try lia.
  pose proof (Z.div_mod (timeLeft s) 60 ltac:(lia)). lia.
Qed.

Lemma clock_face_reads_back_witness :
  String.length (minutes (st ticked_10s)) = 2%nat /\
  String.length (seconds (st ticked_10s)) = 2%nat /\
  exists m sec,
    read_field (minutes (st ticked_10s)) = Some m /\
    read_field (seconds (st ticked_10s)) = Some sec /\
    0 <= sec < 60 /\
    60 * m + sec = timeLeft (st ticked_10s).
Proof.
  apply (clock_face_reads_back (st ticked_10s)).
  vm_compute. split; [discriminate | reflexivity].
Defined.

Example clock_face_at_1490 :
  minutes (st ticked_10s) = "24" /\ seconds (st ticked_10s) = "50".
Proof. vm_compute. split; reflexivity. Qed.

(** ** The daily goal *)

Lemma dailyPct_full (s : Comp) :
  Qle_bool 1 (dailyPct s) = true <-> dailyGoal <= dailySessions s.
Proof.
  unfold dailyPct, dailyGoal. rewrite Qle_bool_iff, Q.min_glb_iff.
  unfold Qle, Qdiv, Qmult, Qinv, inject_Z; simpl. lia.
Qed.

(** X17. The signs of the daily goal agree: the bar turns green and the
    caption reads "Goal hit!" exactly when the counter has reached 8; the
    bar is never filled beyond 1; and the lit dots are the first
    [min(max(dailySessions, 0), 8)] of the eight. *)
Theorem goal_signs_agree (s : Comp) :
  (barColor s = SHORT_COLOR <-> dailyGoal <= dailySessions s) /\
  (leftCaption s = "Goal hit!" <-> dailyGoal <= dailySessions s) /\
  (dailyPct s <= 1)%Q /\
  dots s
  = replicate (Z.to_nat (Z.min (Z.max (dailySessions s) 0) 8)) true
    ++ replicate (8 - Z.to_nat (Z.min (Z.max (dailySessions s) 0) 8)) false.
Proof.
  split; [|split; [|split]].
  - unfold barColor. rewrite <- dailyPct_full.
    destruct (Qle_bool 1 (dailyPct s)); split; done.
  - unfold leftCaption. destruct (Z.leb_spec dailyGoal (dailySessions s));
      split; try done; lia.
  - unfold dailyPct. apply Q.le_min_r.
  - unfold dots, dailyGoal. change (Z.to_nat 8) with 8%nat.
    cbn [seq map Z.of_nat Pos.of_succ_nat Pos.succ].
    set (d := dailySessions s).
    assert (Hd : d <= 0 \/ d = 1 \/ d = 2 \/ d = 3 \/ d = 4 \/ d = 5 \/
                 d = 6 \/ d = 7 \/ 8 <= d) by lia.
    destruct Hd as [H|[H|[H|[H|[H|[H|[H|[H|H]]]]]]]];
      try (rewrite H; reflexivity).
    + rewrite Z.max_r, Z.min_l by lia. cbn [Z.to_nat Nat.sub replicate app].
      repeat match goal with
             | |- context [?a <? d] => destruct (Z.ltb_spec a d); [lia|]
             end.
      reflexivity.
    + rewrite Z.max_l, Z.min_r by lia.
      change (Z.to_nat 8) with 8%nat. cbn [Nat.sub replicate app].
      repeat match goal with
             | |- context [?a <? d] => destruct (Z.ltb_spec a d); [|lia]
             end.
      reflexivity.
Qed.

Example eighth_session_hits_the_goal :
  dailySessions (st (step (env_at 1500000) (TimerFired 1) (onLoaded 7 started))) = 8 /\
  leftCaption (st (onLoaded 7 started)) = "Left" /\
  leftStat (st (onLoaded 7 started)) = "1" /\
  leftCaption (st (step (env_at 1500000) (TimerFired 1) (onLoaded 7 started)))
  = "Goal hit!" /\
  barColor (st (step (env_at 1500000) (TimerFired 1) (onLoaded 7 started)))
  = SHORT_COLOR.
Proof. vm_compute. repeat split; reflexivity. Qed.

(** ** Starting, and what the alert leaves alone *)

(** X18. Pressing START on a stopped timer anchors the run at the current
    instant and the displayed value and installs the one tick loop under a
    fresh id, without touching the display, the mode or the counters. *)
Theorem start_anchors (e : Env) (w : World) :
  reachable w ->
  running (st w) = false ->
  running (st (step e ClickStartPause w)) = true /\
  startedAtRef (refs (step e ClickStartPause w)) = Some (now e) /\
  remainingAtStart (refs (step e ClickStartPause w)) = Some (timeLeft (st w)) /\
  intervalRef (refs (step e ClickStartPause w)) = Some (nextId w) /\
  timers (step e ClickStartPause w) = <[nextId w := TickTask]> (timers w) /\
  timeLeft (st (step e ClickStartPause w)) = timeLeft (st w) /\
  mode (st (step e ClickStartPause w)) = mode (st w) /\
  counters (step e ClickStartPause w) = counters w.
Proof.
  intros Hreach Hrun. apply reachable_wf in Hreach as [_ _ _ _ Hr].
  rewrite Hrun in Hr. destruct Hr as [Hs Hi].
  open_world w. open_env e. read_fields. subst.
  unfold counters. destruct wmode; run_cmds; done.
Qed.

Lemma start_anchors_witness :
  running (st (step (env_at 5) ClickStartPause (mount ∅))) = true /\
  startedAtRef (refs (step (env_at 5) ClickStartPause (mount ∅)))
  = Some (now (env_at 5)) /\
  remainingAtStart (refs (step (env_at 5) ClickStartPause (mount ∅)))
  = Some (timeLeft (st (mount ∅))) /\
  intervalRef (refs (step (env_at 5) ClickStartPause (mount ∅)))
  = Some (nextId (mount ∅)) /\
  timers (step (env_at 5) ClickStartPause (mount ∅))
  = <[nextId (mount ∅) := TickTask]> (timers (mount ∅)) /\
  timeLeft (st (step (env_at 5) ClickStartPause (mount ∅)))
  = timeLeft (st (mount ∅)) /\
  mode (st (step (env_at 5) ClickStartPause (mount ∅))) = mode (st (mount ∅)) /\
  counters (step (env_at 5) ClickStartPause (mount ∅)) = counters (mount ∅).
Proof.
  apply (start_anchors (env_at 5) (mount ∅)).
  - apply reach_mount.
  - reflexivity.
Defined.

(** X19. Between the anchor and the expiry the display is the anchored
    value minus the whole seconds elapsed: a recomputation at [now] with
    [startedAt <= now < startedAt + 1000 * remainingAtStart] shows
    [remainingAtStart - (now - startedAt) / 1000] and keeps running. *)
Theorem display_counts_whole_seconds
    (e : Env) (ev : Event) (w : World) (s r : Z) :
  running (st w) = true ->
  startedAtRef (refs w) = Some s ->
  remainingAtStart (refs w) = Some r ->
  recomputes w ev = true ->
  s <= now e < s + 1000 * r ->
  timeLeft (st (step e ev w)) = r - (now e - s) / 1000 /\
  running (st (step e ev w)) = true /\
  refs (step e ev w) = refs w.
Proof.
  intros Hrun Hs Hr Hev Hnow.
  assert (Hq : Qle_bool (remaining e w) 0 = false).
  { apply not_true_is_false. rewrite expired_iff, Hs, Hr. cbn [js_num]. lia. }
  rewrite (recompute_positive e ev w Hev Hq).
  assert (Hc : Qceiling (remaining e w) = r - (now e - s) / 1000).
  { rewrite ceiling_remaining, Hs, Hr. cbn [js_num].
    rewrite Z.max_l by lia.
    replace (1000 * r - (now e - s) + 999)
      with ((999 - (now e - s)) + r * 1000) by lia.
    rewrite Z.div_add by lia.
    pose proof (Z.div_mod (now e - s) 1000 ltac:(lia)) as H1.
    pose proof (Z.mod_pos_bound (now e - s) 1000 ltac:(lia)) as H2.
    pose proof (Z.div_mod (999 - (now e - s)) 1000 ltac:(lia)) as H3.
    pose proof (Z.mod_pos_bound (999 - (now e - s)) 1000 ltac:(lia)) as H4.
    lia. }
  rewrite Hc. open_world w. read_fields. subst. run_cmds. done.
Qed.

Lemma display_counts_whole_seconds_witness :
  timeLeft (st (step (env_at 10500) (TimerFired 1) started))
  = 1500 - (now (env_at 10500) - 0) / 1000 /\
  running (st (step (env_at 10500) (TimerFired 1) started)) = true /\
  refs (step (env_at 10500) (TimerFired 1) started) = refs started.
Proof.
  apply (display_counts_whole_seconds (env_at 10500) (TimerFired 1) started 0 1500);
    try (vm_compute; reflexivity).
  vm_compute. split; [discriminate | reflexivity].
Defined.

(** X20. A repetition of the bell never throws and only strikes: when a
    live bell interval fires in a reachable world, [ensureCtx] returns with
    a context at hand, the bell strikes exactly once, the expiry handler
    does not run, and the component's state, the refs, the manager's two
    ids, the live timers and the store are as they were. *)
Theorem bell_repetition_rings (e : Env) (j : nat) (w : World) :
  reachable w ->
  timers w !! j = Some BellRing ->
  (exists w', bell_manager.onInterval w = Done w') /\
  ctx (step e (TimerFired j) w) <> None /\
  strikes (step e (TimerFired j) w) = S (strikes w) /\
  expiries (step e (TimerFired j) w) = expiries w /\
  st (step e (TimerFired j) w) = st w /\
  refs (step e (TimerFired j) w) = refs w /\
  bell (step e (TimerFired j) w) = bell w /\
  timers (step e (TimerFired j) w) = timers w /\
  nextId (step e (TimerFired j) w) = nextId w /\
  storage (step e (TimerFired j) w) = storage w.
Proof.
  intros Hreach Hj. apply reachable_silent in Hreach as Hs.
  assert (Ha : AudioCtx w <> None).
  { intros Ha. destruct (Hs Ha) as [_ Hb]. by apply Hb in Hj. }
  clear Hs Hreach. unfold strikes, expiries.
  open_world w. open_env e. read_fields.
  destruct wnew as [anew|]; [clear Ha | done].
  destruct wmode, wrun; run_head; rewrite Hj; run_head; open_ctx wctx anew;
    run_cmds; (split; [eexists; reflexivity | done]).
Qed.

Lemma bell_repetition_rings_witness :
  (exists w', bell_manager.onInterval on_break = Done w') /\
  ctx (step (env_at 1504000) (TimerFired 2) on_break) <> None /\
  strikes (step (env_at 1504000) (TimerFired 2) on_break) = S (strikes on_break) /\
  expiries (step (env_at 1504000) (TimerFired 2) on_break) = expiries on_break /\
  st (step (env_at 1504000) (TimerFired 2) on_break) = st on_break /\
  refs (step (env_at 1504000) (TimerFired 2) on_break) = refs on_break /\
  bell (step (env_at 1504000) (TimerFired 2) on_break) = bell on_break /\
  timers (step (env_at 1504000) (TimerFired 2) on_break) = timers on_break /\
  nextId (step (env_at 1504000) (TimerFired 2) on_break) = nextId on_break /\
  storage (step (env_at 1504000) (TimerFired 2) on_break) = storage on_break.
Proof.
  apply (bell_repetition_rings (env_at 1504000) 2 on_break).
  - apply reachable_run, reach_mount.
  - vm_compute. reflexivity.
Defined.

(** X21. Silencing the bell never stops a countdown: in a reachable running
    world, dismissing the alert or the bell's own timeout leaves the timer
    running with the same anchor, display, mode and counters, and its tick
    loop live. *)
Theorem silencing_keeps_countdown (e : Env) (ev : Event) (w : World) (id : nat) :
  reachable w ->
  running (st w) = true ->
  intervalRef (refs w) = Some id ->
  (ev = ClickDismiss \/
   exists t, ev = TimerFired t /\ timers w !! t = Some BellAutoStop) ->
  running (st (step e ev w)) = true /\
  refs (step e ev w) = refs w /\
  timeLeft (st (step e ev w)) = timeLeft (st w) /\
  mode (st (step e ev w)) = mode (st w) /\
  counters (step e ev w) = counters w /\
  timers (step e ev w) !! id = Some TickTask.
Proof.
  intros Hreach Hrun Hid Hev.
  apply reachable_wf in Hreach as [Hm Ht Hbi Hbt Hr].
  rewrite Hrun in Hr. destruct Hr as (s & r & id' & Hs & Hrem & Hid' & Hlive).
  rewrite Hid in Hid'. injection Hid' as <-.
  unfold counters.
  destruct Hev as [-> | (t & -> & Hauto)];
    open_world w; open_env e; read_fields; subst.
  - destruct wmode, bivl, btmo; run_cmds;
      repeat (split; [done|]); use_wf;
      rewrite ?lookup_delete_ne by congruence; done.
  - assert (Hne : t <> id) by congruence.
    destruct wmode, bivl, btmo; run_head; rewrite Hauto; run_cmds;
      repeat (split; [done|]); use_wf;
      rewrite ?lookup_delete_ne by congruence; done.
Qed.

Lemma silencing_keeps_countdown_witness :
  running (st (step (env_at 1500200) ClickDismiss on_break)) = true /\
  refs (step (env_at 1500200) ClickDismiss on_break) = refs on_break /\
  timeLeft (st (step (env_at 1500200) ClickDismiss on_break))
  = timeLeft (st on_break) /\
  mode (st (step (env_at 1500200) ClickDismiss on_break)) = mode (st on_break) /\
  counters (step (env_at 1500200) ClickDismiss on_break) = counters on_break /\
  timers (step (env_at 1500200) ClickDismiss on_break) !! 4%nat = Some TickTask.
Proof.
  apply (silencing_keeps_countdown (env_at 1500200) ClickDismiss on_break 4).
  - apply reachable_run, reach_mount.
  - vm_compute. reflexivity.
  - vm_compute. reflexivity.
  - by left.
Defined.
